(** * Verification of the MessageBird request-signature validator

    A shallow embedding of [signature/signature.go] together with the parts
    of the Go standard library the package calls ([crypto/sha256],
    [crypto/hmac], [encoding/base64], [strconv], [net/url], [time],
    [net/http]).  Go's [string] is [string], [[]byte] is [list byte], fixed
    width integers are [Z] with the wrap-around written out, a
    [(value, error)] result is a [Result]. *)

From Stdlib Require Import ZArith List Strings.String Strings.Ascii Strings.Byte Bool Lia Permutation.
From stdpp Require Import gmap strings.

Import ListNotations.
Local Open Scope string_scope.
Local Open Scope list_scope.
Local Open Scope Z_scope.

(** ** Results and bytes *)

Inductive Result (A E : Type) : Type :=
| Ok (a : A)
| Err (e : E).
Arguments Ok {A E} a.
Arguments Err {A E} e.

Definition isOk {A E} (r : Result A E) : bool :=
  match r with Ok _ => true | Err _ => false end.

(** The value of a byte, and the byte of the low eight bits of an integer
    (Go's conversion [byte(x)]). *)
Definition byteZ (b : byte) : Z := Z.of_N (Byte.to_N b).

Definition Zbyte (z : Z) : byte :=
  match Byte.of_N (Z.to_N (Z.land z 255)) with
  | Some b => b
  | None => x00
  end.

(** [[]byte(s)] and [string(b)]. *)
Definition bytesOf (s : string) : list byte := list_byte_of_string s.
Definition stringOf (b : list byte) : string := string_of_list_byte b.

Definition charZ (c : ascii) : Z := Z.of_N (N_of_ascii c).

(** ** crypto/sha256 *)

Module sha256.

Definition mask32 : Z := 4294967295.
Definition add32 (x y : Z) : Z := Z.land (x + y) mask32.
Definition rotr (n x : Z) : Z :=
  Z.lor (Z.shiftr x n) (Z.land (Z.shiftl x (32 - n)) mask32).
Definition not32 (x : Z) : Z := Z.lxor x mask32.

Definition Ch (x y z : Z) : Z := Z.lxor (Z.land x y) (Z.land (not32 x) z).
Definition Maj (x y z : Z) : Z :=
  Z.lxor (Z.lxor (Z.land x y) (Z.land x z)) (Z.land y z).
Definition Sigma0 (x : Z) : Z := Z.lxor (Z.lxor (rotr 2 x) (rotr 13 x)) (rotr 22 x).
Definition Sigma1 (x : Z) : Z := Z.lxor (Z.lxor (rotr 6 x) (rotr 11 x)) (rotr 25 x).
Definition sigma0 (x : Z) : Z := Z.lxor (Z.lxor (rotr 7 x) (rotr 18 x)) (Z.shiftr x 3).
Definition sigma1 (x : Z) : Z := Z.lxor (Z.lxor (rotr 17 x) (rotr 19 x)) (Z.shiftr x 10).

(** The largest [r] below [2 ^ k] with [r ^ e <= n], found bit by bit. *)
Fixpoint root (k : nat) (e n r : Z) : Z :=
  match k with
  | O => r
  | S k' =>
      let r' := r + 2 ^ Z.of_nat k' in
      root k' e n (if r' ^ e <=? n then r' else r)
  end.

(** The first 32 bits of the fractional part of the [e]-th root of [p]. *)
Definition fraction (e p : Z) : Z :=
  Z.land (root 40 e (p * 2 ^ (32 * e)) 0) mask32.

Definition isPrime (p : Z) : bool :=
  forallb (fun d => negb (p mod Z.of_nat d =? 0)) (seq 2 (Z.to_nat p - 2)).

Definition primes : list Z :=
  Eval vm_compute in List.filter isPrime (map Z.of_nat (seq 2 310)).

(** The round constants [_K]: the cube roots of the first 64 primes. *)
Definition K : list Z := Eval vm_compute in map (fraction 3) primes.

(** The initial hash value: the square roots of the first 8 primes. *)
Definition init : list Z := Eval vm_compute in map (fraction 2) (firstn 8 primes).

(** Big-endian 32-bit words of a block. *)
Fixpoint words (bs : list byte) : list Z :=
  match bs with
  | a :: b :: c :: d :: rest =>
      Z.lor (Z.lor (Z.lor (Z.shiftl (byteZ a) 24) (Z.shiftl (byteZ b) 16))
               (Z.shiftl (byteZ c) 8)) (byteZ d) :: words rest
  | _ => []
  end.

(** The message schedule, kept newest word first: [w] holds
    [W(t-1) :: W(t-2) :: ...]. *)
Fixpoint schedule (n : nat) (w : list Z) : list Z :=
  match n with
  | O => w
  | S n' =>
      let wt := add32 (add32 (add32 (sigma1 (nth 1 w 0)) (nth 6 w 0))
                         (sigma0 (nth 14 w 0))) (nth 15 w 0) in
      schedule n' (wt :: w)
  end.

Record regs := Regs { ra : Z; rb : Z; rc : Z; rd : Z; re : Z; rf : Z; rg : Z; rh : Z }.

Definition round (s : regs) (kw : Z * Z) : regs :=
  let '(k, w) := kw in
  let t1 := add32 (add32 (add32 (add32 (rh s) (Sigma1 (re s))) (Ch (re s) (rf s) (rg s))) k) w in
  let t2 := add32 (Sigma0 (ra s)) (Maj (ra s) (rb s) (rc s)) in
  Regs (add32 t1 t2) (ra s) (rb s) (rc s) (add32 (rd s) t1) (re s) (rf s) (rg s).

Definition regsOf (h : list Z) : regs :=
  Regs (nth 0 h 0) (nth 1 h 0) (nth 2 h 0) (nth 3 h 0)
       (nth 4 h 0) (nth 5 h 0) (nth 6 h 0) (nth 7 h 0).

Definition block (h : list Z) (blk : list byte) : list Z :=
  let w := rev (schedule 48 (rev (words blk))) in
  let s0 := regsOf h in
  let s := fold_left round (combine K w) s0 in
  [ add32 (ra s0) (ra s); add32 (rb s0) (rb s); add32 (rc s0) (rc s);
    add32 (rd s0) (rd s); add32 (re s0) (re s); add32 (rf s0) (rf s);
    add32 (rg s0) (rg s); add32 (rh s0) (rh s) ].

(** [n] bytes of [z], most significant first. *)
Fixpoint bigEndian (n : nat) (z : Z) : list byte :=
  match n with
  | O => []
  | S n' => Zbyte (Z.shiftr z (8 * Z.of_nat n')) :: bigEndian n' z
  end.

(** Padding: a 0x80 byte, zeros up to 56 mod 64, the bit length on 64 bits. *)
Definition pad (msg : list byte) : list byte :=
  let len := Z.of_nat (length msg) in
  let zeros := Z.to_nat ((55 - len) mod 64) in
  msg ++ x80 :: repeat x00 zeros ++ bigEndian 8 (Z.land (8 * len) 18446744073709551615).

Fixpoint blocks (n : nat) (h : list Z) (bs : list byte) : list Z :=
  match n with
  | O => h
  | S n' => blocks n' (block h (firstn 64 bs)) (skipn 64 bs)
  end.

(** [sha256.Sum256]: the 32-byte digest. *)
Definition Sum256 (data : list byte) : list byte :=
  let p := pad data in
  flat_map (bigEndian 4) (blocks (length p / 64) init p).

Definition BlockSize : nat := 64%nat.

End sha256.

(** ** crypto/hmac *)

Module hmac.

Definition xorByte (c : Z) (b : byte) : byte := Zbyte (Z.lxor (byteZ b) c).

(** [hmac.New(sha256.New, key)]: a key longer than the block size is hashed
    first, then the key is padded with zeros to the block size. *)
Definition blockKey (key : list byte) : list byte :=
  let k := if (sha256.BlockSize <? length key)%nat then sha256.Sum256 key else key in
  k ++ repeat x00 (sha256.BlockSize - length k).

(** [mac.Write(message)] followed by [mac.Sum(nil)]. *)
Definition Sum (key message : list byte) : list byte :=
  let k := blockKey key in
  let inner := sha256.Sum256 (map (xorByte 0x36) k ++ message) in
  sha256.Sum256 (map (xorByte 0x5c) k ++ inner).

(** [subtle.ConstantTimeCompare]: no early exit, the differences are
    accumulated with or. *)
Fixpoint accumulate (v : Z) (x y : list byte) : Z :=
  match x, y with
  | a :: x', b :: y' => accumulate (Z.lor v (Z.lxor (byteZ a) (byteZ b))) x' y'
  | _, _ => v
  end.

Definition ConstantTimeCompare (x y : list byte) : Z :=
  if negb (length x =? length y)%nat then 0
  else if accumulate 0 x y =? 0 then 1 else 0.

(** [hmac.Equal]. *)
Definition Equal (mac1 mac2 : list byte) : bool :=
  ConstantTimeCompare mac1 mac2 =? 1.

End hmac.

(** ** encoding/base64 *)

Module base64.

Definition encodeStd : string :=
  "ABCDEFGHIJKLMNOPQRSTUVWXYZabcdefghijklmnopqrstuvwxyz0123456789+/".

Definition padChar : ascii := "="%char.

(** [enc.encode[n]]. *)
Definition encode (n : Z) : ascii :=
  nth (Z.to_nat n) (list_ascii_of_string encodeStd) "A"%char.

Fixpoint indexOf (c : ascii) (l : list ascii) (i : Z) : Z :=
  match l with
  | [] => 255
  | x :: r => if Ascii.eqb x c then i else indexOf c r (i + 1)
  end.

(** [enc.decodeMap[c]]: the position of [c] in the alphabet, 0xff for a
    byte outside it. *)
Definition decodeMap (c : ascii) : Z :=
  indexOf c (list_ascii_of_string encodeStd) 0.

Definition quantum (a b c : byte) : Z :=
  Z.lor (Z.lor (Z.shiftl (byteZ a) 16) (Z.shiftl (byteZ b) 8)) (byteZ c).

Definition sextet (val k : Z) : ascii := encode (Z.land (Z.shiftr val k) 63).

(** [StdEncoding.EncodeToString]. *)
Fixpoint EncodeToString (src : list byte) : string :=
  match src with
  | [] => ""
  | [a] =>
      let val := Z.shiftl (byteZ a) 16 in
      String (sextet val 18) (String (sextet val 12)
        (String padChar (String padChar "")))
  | [a; b] =>
      let val := Z.lor (Z.shiftl (byteZ a) 16) (Z.shiftl (byteZ b) 8) in
      String (sextet val 18) (String (sextet val 12)
        (String (sextet val 6) (String padChar "")))
  | a :: b :: c :: rest =>
      let val := quantum a b c in
      String (sextet val 18) (String (sextet val 12)
        (String (sextet val 6) (String (sextet val 0) (EncodeToString rest))))
  end.

Inductive CorruptInputError := CorruptInput.

Definition isNewline (c : ascii) : bool :=
  Ascii.eqb c "010"%char || Ascii.eqb c "013"%char.

Fixpoint skipNewlines (s : string) : string :=
  match s with
  | String c r => if isNewline c then skipNewlines r else s
  | "" => ""
  end.

(** The 24-bit value of the sextets read so far in a quantum. *)
Definition assemble (dbuf : list Z) : Z :=
  Z.lor (Z.lor (Z.lor (Z.shiftl (nth 0 dbuf 0) 18) (Z.shiftl (nth 1 dbuf 0) 12))
           (Z.shiftl (nth 2 dbuf 0) 6)) (nth 3 dbuf 0).

(** The first [n] bytes of a quantum. *)
Definition emit (n : nat) (dbuf : list Z) : list byte :=
  let val := assemble dbuf in
  firstn n [Zbyte (Z.shiftr val 16); Zbyte (Z.shiftr val 8); Zbyte val].

(** [Decode] with [decodeQuantum] inlined: [dbuf] holds the sextets of the
    quantum being read ([j] of them).  Line feeds and carriage returns are
    skipped wherever they stand; padding is required and closes the input;
    the encoding is not strict, so the unused low bits of a padded quantum
    are not checked. *)
Fixpoint decode (src : string) (dbuf : list Z) : Result (list byte) CorruptInputError :=
  match src with
  | "" =>
      match dbuf with
      | [] => Ok []
      | _ => Err CorruptInput
      end
  | String c rest =>
      let out := decodeMap c in
      if negb (out =? 255) then
        let dbuf' := dbuf ++ [out] in
        if (length dbuf' =? 4)%nat then
          match decode rest [] with
          | Ok tl => Ok (emit 3 dbuf' ++ tl)
          | Err e => Err e
          end
        else decode rest dbuf'
      else if isNewline c then decode rest dbuf
      else if negb (Ascii.eqb c padChar) then Err CorruptInput
      else
        match length dbuf with
        | 0%nat | 1%nat => Err CorruptInput
        | 2%nat =>
            match skipNewlines rest with
            | "" => Err CorruptInput
            | String c2 rest2 =>
                if negb (Ascii.eqb c2 padChar) then Err CorruptInput
                else
                  match skipNewlines rest2 with
                  | "" => Ok (emit 1 dbuf)
                  | _ => Err CorruptInput
                  end
            end
        | _ =>
            match skipNewlines rest with
            | "" => Ok (emit 2 dbuf)
            | _ => Err CorruptInput
            end
        end
  end.

(** [StdEncoding.DecodeString]. *)
Definition DecodeString (s : string) : Result (list byte) CorruptInputError :=
  decode s [].

End base64.

(** ** strconv *)

Module strconv.

Inductive NumError := ErrSyntax | ErrRange.

Definition maxUint64 : Z := 18446744073709551615.

Definition lower (c : Z) : Z := Z.lor c 32.

(** The loop of [ParseUint(s, 10, 64)] over the digits, [n] the value read
    so far.  An underscore is a digit separator only for base 0. *)
Fixpoint parseDigits (s : string) (n : Z) : Result Z NumError :=
  match s with
  | "" => Ok n
  | String ch rest =>
      let c := charZ ch in
      if (48 <=? c) && (c <=? 57) then
        let d := c - 48 in
        if n >=? maxUint64 / 10 + 1 then Err ErrRange
        else
          let n' := (n * 10) mod 2 ^ 64 in
          let n1 := (n' + d) mod 2 ^ 64 in
          if (n1 <? n') || (n1 >? maxUint64) then Err ErrRange
          else parseDigits rest n1
      else if (97 <=? lower c) && (lower c <=? 122) then
        (* a letter digit is at least 10, so not below the base *)
        Err ErrSyntax
      else Err ErrSyntax
  end.

Definition ParseUint (s : string) : Result Z NumError :=
  match s with
  | "" => Err ErrSyntax
  | _ => parseDigits s 0
  end.

(** [strconv.ParseInt(s, 10, 64)]. *)
Definition ParseInt (s : string) : Result Z NumError :=
  match s with
  | "" => Err ErrSyntax
  | String c rest =>
      let '(neg, s') :=
        if Ascii.eqb c "+"%char then (false, rest)
        else if Ascii.eqb c "-"%char then (true, rest)
        else (false, s) in
      match ParseUint s' with
      | Err ErrSyntax => Err ErrSyntax
      | r =>
          let un := match r with Ok un => un | Err _ => maxUint64 end in
          let cutoff := 2 ^ 63 in
          if negb neg && (un >=? cutoff) then Err ErrRange
          else if neg && (un >? cutoff) then Err ErrRange
          else Ok (if neg then - un else un)
      end
  end.

(** [strconv.FormatInt(i, 10)]: the decimal digits, least significant
    first into [acc]; twenty digits are enough for 64 bits. *)
Definition digitChar (d : Z) : ascii := ascii_of_N (Z.to_N (48 + d)).

Fixpoint formatBits (fuel : nat) (u : Z) (acc : string) : string :=
  match fuel with
  | O => acc
  | S fuel' =>
      let acc' := String (digitChar (u mod 10)) acc in
      if u <? 10 then acc' else formatBits fuel' (u / 10) acc'
  end.

Definition FormatInt (i : Z) : string :=
  if i <? 0 then String "-" (formatBits 20 (- i) "") else formatBits 20 i "".

End strconv.

(** ** fmt *)

Module fmt.

Inductive Arg :=
| Str (s : string)
| Bytes (b : list byte).

(** The verb [%s] writes a string or a byte slice as its raw bytes. *)
Definition verbS (a : Arg) : list byte :=
  match a with
  | Str s => bytesOf s
  | Bytes b => b
  end.

(** [fmt.Fprintf] into a [bytes.Buffer], for formats whose only verb is
    [%s]: the bytes appended to the buffer. *)
Fixpoint Fprintf (format : string) (args : list Arg) : list byte :=
  match format with
  | "" => []
  | String "%" (String "s" rest) =>
      match args with
      | a :: args' => verbS a ++ Fprintf rest args'
      | [] => bytesOf "%!s(MISSING)" ++ Fprintf rest []
      end
  | String c rest => byte_of_ascii c :: Fprintf rest args
  end.

(** [fmt.Errorf] with one [%s]: the message of the error. *)
Definition Errorf (format : string) (args : list Arg) : string :=
  stringOf (Fprintf format args).

End fmt.

(** ** encoding/hex *)

Module hex.

Definition hextable : string := "0123456789abcdef".

Definition digit (n : Z) : ascii :=
  nth (Z.to_nat n) (list_ascii_of_string hextable) "0"%char.

(** [hex.EncodeToString]. *)
Fixpoint EncodeToString (src : list byte) : string :=
  match src with
  | [] => ""
  | v :: r =>
      String (digit (Z.shiftr (byteZ v) 4))
        (String (digit (Z.land (byteZ v) 15)) (EncodeToString r))
  end.

End hex.

(** ** strings *)

Module strings.

(** [strings.Cut(s, sep)] for a one-byte separator. *)
Fixpoint Cut (sep : ascii) (s : string) : string * string * bool :=
  match s with
  | "" => ("", "", false)
  | String c r =>
      if Ascii.eqb c sep then ("", r, true)
      else let '(before, after, found) := Cut sep r in (String c before, after, found)
  end.

Fixpoint ContainsByte (sep : ascii) (s : string) : bool :=
  match s with
  | "" => false
  | String c r => Ascii.eqb c sep || ContainsByte sep r
  end.

Fixpoint CountByte (sep : ascii) (s : string) : Z :=
  match s with
  | "" => 0
  | String c r => (if Ascii.eqb c sep then 1 else 0) + CountByte sep r
  end.

Definition HasPrefix (s prefix : string) : bool := String.prefix prefix s.

Fixpoint HasSuffixByte (s : string) (c : ascii) : bool :=
  match s with
  | "" => false
  | String x "" => Ascii.eqb x c
  | String _ r => HasSuffixByte r c
  end.

(** [s[:len(s)-1]]. *)
Fixpoint dropLast (s : string) : string :=
  match s with
  | "" => ""
  | String _ "" => ""
  | String x r => String x (dropLast r)
  end.

Definition lowerByte (c : ascii) : ascii :=
  let n := charZ c in
  if (65 <=? n) && (n <=? 90) then ascii_of_N (Z.to_N (n + 32)) else c.

Fixpoint ToLower (s : string) : string :=
  match s with
  | "" => ""
  | String c r => String (lowerByte c) (ToLower r)
  end.

(** The pieces of [s] between the occurrences of [sep]. *)
Fixpoint SplitByte (sep : ascii) (s : string) : list string :=
  match s with
  | "" => [""]
  | String c r =>
      match SplitByte sep r with
      | [] => [String c ""]
      | x :: l => if Ascii.eqb c sep then "" :: x :: l else String c x :: l
      end
  end.

(** [sort.Strings] / [slices.Sort]: ascending byte-wise order. *)
Fixpoint insertSorted (k : string) (l : list string) : list string :=
  match l with
  | [] => [k]
  | x :: r => if String.leb k x then k :: l else x :: insertSorted k r
  end.

Definition Sort (l : list string) : list string := fold_right insertSorted [] l.

End strings.

(** ** net/url *)

Module url.

Inductive encoding := encodePath | encodeFragment | encodeQueryComponent.

Inductive Error :=
| EscapeError
| InvalidControlCharacter
| MissingProtocolScheme
| FirstSegmentColon
| AuthorityNotModelled.

Definition ishex (c : ascii) : bool :=
  let n := charZ c in
  ((48 <=? n) && (n <=? 57)) || ((97 <=? n) && (n <=? 102)) || ((65 <=? n) && (n <=? 70)).

Definition unhex (c : ascii) : Z :=
  let n := charZ c in
  if (48 <=? n) && (n <=? 57) then n - 48
  else if (97 <=? n) && (n <=? 102) then n - 97 + 10
  else if (65 <=? n) && (n <=? 70) then n - 65 + 10
  else 0.

Definition asciiOfZ (z : Z) : ascii := ascii_of_N (Z.to_N z).

(** [unescape(s, mode)] for the three modes reached from [Parse] and
    [ParseQuery]: a percent sign must be followed by two hex digits; in a
    query component a plus sign stands for a space. *)
Fixpoint unescape (s : string) (mode : encoding) : Result string Error :=
  match s with
  | "" => Ok ""
  | String "%" (String h1 (String h2 rest)) =>
      if ishex h1 && ishex h2 then
        match unescape rest mode with
        | Ok t => Ok (String (asciiOfZ (Z.lor (Z.shiftl (unhex h1) 4) (unhex h2))) t)
        | Err e => Err e
        end
      else Err EscapeError
  | String "%" _ => Err EscapeError
  | String "+" rest =>
      match unescape rest mode with
      | Ok t =>
          Ok (String (match mode with encodeQueryComponent => " " | _ => "+" end)%char t)
      | Err e => Err e
      end
  | String c rest =>
      match unescape rest mode with
      | Ok t => Ok (String c t)
      | Err e => Err e
      end
  end.

Definition QueryUnescape (s : string) : Result string Error :=
  unescape s encodeQueryComponent.

(** [shouldEscape(c, encodeQueryComponent)]: only the unreserved
    characters stay as they are. *)
Definition shouldEscape (c : ascii) : bool :=
  let n := charZ c in
  if ((97 <=? n) && (n <=? 122)) || ((65 <=? n) && (n <=? 90)) || ((48 <=? n) && (n <=? 57))
  then false
  else if Ascii.eqb c "-" || Ascii.eqb c "_" || Ascii.eqb c "." || Ascii.eqb c "~"
  then false
  else true.

Definition upperhex : string := "0123456789ABCDEF".

Definition hexDigit (n : Z) : ascii :=
  nth (Z.to_nat n) (list_ascii_of_string upperhex) "0"%char.

(** [QueryEscape(s)]. *)
Fixpoint QueryEscape (s : string) : string :=
  match s with
  | "" => ""
  | String c r =>
      if shouldEscape c then
        if Ascii.eqb c " " then String "+" (QueryEscape r)
        else String "%" (String (hexDigit (Z.shiftr (charZ c) 4))
               (String (hexDigit (Z.land (charZ c) 15)) (QueryEscape r)))
      else String c (QueryEscape r)
  end.

Record URL := mkURL {
  Scheme : string;
  Opaque : string;
  Path : string;
  ForceQuery : bool;
  RawQuery : string;
  Fragment : string
}.

Definition isCTL (c : ascii) : bool := (charZ c <? 32) || (charZ c =? 127).

Fixpoint stringContainsCTLByte (s : string) : bool :=
  match s with
  | "" => false
  | String c r => isCTL c || stringContainsCTLByte r
  end.

(** The loop of [getScheme]: the index of the colon that ends the scheme, if
    there is a scheme; [first] tells whether the byte read is the first one. *)
Fixpoint schemeEnd (s : string) (first : bool) : Result (option nat) Error :=
  match s with
  | "" => Ok None
  | String ch r =>
      let c := charZ ch in
      if ((97 <=? c) && (c <=? 122)) || ((65 <=? c) && (c <=? 90)) then
        match schemeEnd r false with
        | Ok (Some n) => Ok (Some (S n))
        | other => other
        end
      else if ((48 <=? c) && (c <=? 57)) || (c =? 43) || (c =? 45) || (c =? 46) then
        if first then Ok None
        else
          match schemeEnd r false with
          | Ok (Some n) => Ok (Some (S n))
          | other => other
          end
      else if c =? 58 then
        if first then Err MissingProtocolScheme else Ok (Some O)
      else Ok None
  end.

Definition getScheme (rawURL : string) : Result (string * string) Error :=
  match schemeEnd rawURL true with
  | Err e => Err e
  | Ok None => Ok ("", rawURL)
  | Ok (Some i) =>
      Ok (String.substring 0 i rawURL,
          String.substring (S i) (String.length rawURL - S i) rawURL)
  end.

(** [parse(rawURL, false)].  The authority of a reference that begins with
    two slashes is not modelled; a reference that begins with a question
    mark, the only kind the validator builds, never has one. *)
Definition parse (rawURL : string) : Result URL Error :=
  if stringContainsCTLByte rawURL then Err InvalidControlCharacter
  else if String.eqb rawURL "*" then Ok (mkURL "" "" "*" false "" "")
  else
    match getScheme rawURL with
    | Err e => Err e
    | Ok (scheme, rest) =>
        let scheme := strings.ToLower scheme in
        let '(rest, force, rawQuery) :=
          if strings.HasSuffixByte rest "?" && (strings.CountByte "?" rest =? 1)
          then (strings.dropLast rest, true, "")
          else let '(before, after, _) := strings.Cut "?" rest in (before, false, after) in
        if negb (strings.HasPrefix rest "/") && negb (String.eqb scheme "") then
          Ok (mkURL scheme rest "" force rawQuery "")
        else if negb (strings.HasPrefix rest "/")
                && strings.ContainsByte ":" (fst (fst (strings.Cut "/" rest))) then
          Err FirstSegmentColon
        else if (negb (String.eqb scheme "") || negb (strings.HasPrefix rest "///"))
                && strings.HasPrefix rest "//" then
          Err AuthorityNotModelled
        else
          match unescape rest encodePath with
          | Err e => Err e
          | Ok path => Ok (mkURL scheme "" path force rawQuery "")
          end
    end.

(** [url.Parse]: the fragment is cut off first and unescaped last. *)
Definition Parse (rawURL : string) : Result URL Error :=
  let '(u, frag, _) := strings.Cut "#" rawURL in
  match parse u with
  | Err e => Err e
  | Ok url =>
      if String.eqb frag "" then Ok url
      else
        match unescape frag encodeFragment with
        | Err e => Err e
        | Ok f =>
            Ok (mkURL (Scheme url) (Opaque url) (Path url) (ForceQuery url) (RawQuery url) f)
        end
  end.

(** [url.Values] is [map[string][]string]. *)
Abbreviation Values := (gmap string (list string)).

(** [m[key]], the empty slice for an absent key. *)
Definition values (m : Values) (key : string) : list string :=
  default [] (m !! key).

(** One turn of the loop of [parseQuery] on the piece [key] cut at an
    ampersand: a piece with a semicolon, an empty piece or a piece whose key
    or value does not unescape adds nothing. *)
Definition parsePiece (m : Values) (key : string) : Values :=
  if strings.ContainsByte ";" key then m
  else if String.eqb key "" then m
  else
    let '(key, value, _) := strings.Cut "=" key in
    match QueryUnescape key with
    | Err _ => m
    | Ok key =>
        match QueryUnescape value with
        | Err _ => m
        | Ok value => <[key := values m key ++ [value]]> m
        end
    end.

(** The map built by [ParseQuery]; the error it also returns is dropped by
    [Query]. *)
Definition ParseQuery (query : string) : Values :=
  fold_left parsePiece (strings.SplitByte "&" query) ∅.

(** [u.Query()]. *)
Definition Query (u : URL) : Values := ParseQuery (RawQuery u).

(** [v.Encode()]: keys in sorted order, the values of a key in the order
    they were added. *)
Definition Encode (v : Values) : string :=
  let keys := strings.Sort (map fst (map_to_list v)) in
  fold_left (fun buf k =>
    let keyEscaped := QueryEscape k in
    fold_left (fun buf x =>
      String.append
        (String.append (String.append (if String.eqb buf "" then buf else String.append buf "&")
                          keyEscaped) "=")
        (QueryEscape x)) (values v k) buf) keys "".

End url.

(** ** time *)

Module time.

(** A [Duration] is an [int64] count of nanoseconds. *)
Abbreviation Duration := Z.

Definition Nanosecond : Duration := 1.
Definition Second : Duration := 1000000000.
Definition minDuration : Duration := - 2 ^ 63.
Definition maxDuration : Duration := 2 ^ 63 - 1.

(** [int64] wrap-around. *)
Definition wrap64 (z : Z) : Z := (z + 2 ^ 63) mod 2 ^ 64 - 2 ^ 63.

(** The wall clock of a [Time]: seconds since January 1 of year 1 as an
    [int64], and nanoseconds within the second.  [time.Now] carries a
    monotonic reading too, which [Sub] uses only when both times have one;
    a time made by [time.Unix] has none. *)
Record Time := mkTime { sec : Z; nsec : Z }.

Definition unixToInternal : Z := (1969 * 365 + 1969 / 4 - 1969 / 100 + 1969 / 400) * 86400.

(** [time.Unix(sec, nsec)]. *)
Definition Unix (sec nsec : Z) : Time :=
  let '(sec, nsec) :=
    if (nsec <? 0) || (nsec >=? 1000000000) then
      let n := Z.quot nsec 1000000000 in
      let sec := wrap64 (sec + n) in
      let nsec := wrap64 (nsec - wrap64 (n * 1000000000)) in
      if nsec <? 0 then (wrap64 (sec - 1), nsec + 1000000000) else (sec, nsec)
    else (sec, nsec) in
  mkTime (wrap64 (sec + unixToInternal)) nsec.

(** [t.addSec(d)]: the sum saturates instead of wrapping. *)
Definition addSec (t : Time) (d : Z) : Time :=
  let sum := wrap64 (sec t + d) in
  if Bool.eqb (sum >? sec t) (d >? 0) then mkTime sum (nsec t)
  else if d >? 0 then mkTime (2 ^ 63 - 1) (nsec t)
  else mkTime (- (2 ^ 63 - 1)) (nsec t).

(** [t.Add(d)]. *)
Definition Add (t : Time) (d : Duration) : Time :=
  let dsec := Z.quot d 1000000000 in
  let nsec' := nsec t + Z.rem d 1000000000 in
  let '(dsec, nsec') :=
    if nsec' >=? 1000000000 then (dsec + 1, nsec' - 1000000000)
    else if nsec' <? 0 then (dsec - 1, nsec' + 1000000000)
    else (dsec, nsec') in
  addSec (mkTime (sec t) nsec') dsec.

Definition Equal (t u : Time) : bool := (sec t =? sec u) && (nsec t =? nsec u).

Definition Before (t u : Time) : bool :=
  (sec t <? sec u) || ((sec t =? sec u) && (nsec t <? nsec u)).

(** [t.Sub(u)] on wall clocks: the difference, or the nearest duration
    when the difference does not fit. *)
Definition Sub (t u : Time) : Duration :=
  let d := wrap64 (wrap64 (wrap64 (sec t - sec u) * Second) + wrap64 (nsec t - nsec u)) in
  if Equal (Add u d) t then d
  else if Before t u then minDuration
  else maxDuration.

End time.

(** ** io and net/http *)

Module http.

(** A body stream: the bytes it delivers before its end (or before a read
    error, which [ValidRequest] does not look at) and how many were read. *)
Record Reader := mkReader { data : list byte; off : nat }.

(** [ioutil.ReadAll]: whatever is left, and the reader at its end. *)
Definition ReadAll (r : Reader) : list byte * Reader :=
  (skipn (off r) (data r), mkReader (data r) (length (data r))).

(** [ioutil.NopCloser(bytes.NewBuffer(b))]. *)
Definition NewBuffer (b : list byte) : Reader := mkReader b 0.

(** [textproto]'s [validHeaderFieldByte]: the token characters. *)
Definition validHeaderFieldByte (c : ascii) : bool :=
  let n := charZ c in
  ((97 <=? n) && (n <=? 122)) || ((65 <=? n) && (n <=? 90)) || ((48 <=? n) && (n <=? 57))
  || strings.ContainsByte c "!#$%&'*+-.^_`|~".

Fixpoint allValid (s : string) : bool :=
  match s with
  | "" => true
  | String c r => validHeaderFieldByte c && allValid r
  end.

Fixpoint canonicalCase (upper : bool) (s : string) : string :=
  match s with
  | "" => ""
  | String ch r =>
      let n := charZ ch in
      let c :=
        if upper && (97 <=? n) && (n <=? 122) then url.asciiOfZ (n - 32)
        else if negb upper && (65 <=? n) && (n <=? 90) then url.asciiOfZ (n + 32)
        else ch in
      String c (canonicalCase (Ascii.eqb c "-") r)
  end.

(** [textproto.CanonicalMIMEHeaderKey]: a key with a byte outside the
    token characters is left as it is. *)
Definition CanonicalMIMEHeaderKey (s : string) : string :=
  if allValid s then canonicalCase true s else s.

Abbreviation Header := (gmap string (list string)).

(** [h.Get(key)]: the first value under the canonical key. *)
Definition Get (h : Header) (key : string) : string :=
  match h !! CanonicalMIMEHeaderKey key with
  | Some (v :: _) => v
  | _ => ""
  end.

Definition Set_ (h : Header) (key value : string) : Header :=
  <[CanonicalMIMEHeaderKey key := [value]]> h.

Definition Del (h : Header) (key : string) : Header :=
  delete (CanonicalMIMEHeaderKey key) h.

Record Request := mkRequest {
  Header_ : Header;
  Host : string;
  URL : url.URL;
  Body : Reader
}.

(** What a [ResponseWriter] has been told: its header map, the status
    written if any, the body written. *)
Record ResponseWriter := mkResponse {
  wHeader : Header;
  wStatus : option Z;
  wBody : list byte
}.

Definition StatusUnauthorized : Z := 401.

Definition WriteHeader (w : ResponseWriter) (code : Z) : ResponseWriter :=
  match wStatus w with
  | Some _ => w
  | None => mkResponse (wHeader w) (Some code) (wBody w)
  end.

Definition Write_ (w : ResponseWriter) (b : list byte) : ResponseWriter :=
  let w := WriteHeader w 200 in
  mkResponse (wHeader w) (wStatus w) (wBody w ++ b).

(** [http.Error(w, error, code)]. *)
Definition Error (w : ResponseWriter) (error : string) (code : Z) : ResponseWriter :=
  let h := Del (wHeader w) "Content-Length" in
  let h := Set_ h "Content-Type" "text/plain; charset=utf-8" in
  let h := Set_ h "X-Content-Type-Options" "nosniff" in
  let w := WriteHeader (mkResponse h (wStatus w) (wBody w)) code in
  Write_ w (bytesOf error ++ [x0a]).

(** A handler turns the writer it is given into the writer it leaves. *)
Definition Handler := ResponseWriter -> Request -> ResponseWriter.

End http.

(** ** package signature *)

Definition tsHeader : string := "MessageBird-Request-Timestamp".
Definition sHeader : string := "MessageBird-Signature".

(** Where a [*time.Duration] may point: at the package variable
    [ValidityWindow], or at a duration of the caller's. *)
Inductive DurationPtr :=
| AddrValidityWindow
| AddrOf (l : nat).

(** What a call reads besides its arguments: the package variable, the
    durations behind the caller's pointers, and the clock. *)
Record World := mkWorld {
  ValidityWindow : time.Duration;
  durations : nat -> time.Duration;
  Now : time.Time
}.

Definition load (w : World) (p : DurationPtr) : time.Duration :=
  match p with
  | AddrValidityWindow => ValidityWindow w
  | AddrOf l => durations w l
  end.

(** [var ValidityWindow = 5 * time.Second]. *)
Definition initValidityWindow : time.Duration := 5 * time.Second.

(** The world when the package has just been initialised. *)
Definition initWorld (now : time.Time) : World :=
  mkWorld initValidityWindow (fun _ => 0) now.

(** The assignment [signature.ValidityWindow = d]. *)
Definition setValidityWindow (d : time.Duration) (w : World) : World :=
  mkWorld d (durations w) (Now w).

(** The assignment [*p = d] through a pointer of the caller's. *)
Definition store (l : nat) (d : time.Duration) (w : World) : World :=
  mkWorld (ValidityWindow w) (fun l' => if Nat.eqb l' l then d else durations w l') (Now w).

Definition stringToTime (s : string) : Result time.Time strconv.NumError :=
  match strconv.ParseInt s with
  | Err err => Err err
  | Ok sec => Ok (time.Unix sec 0)
  end.

(** [mac.Write] of a hash never fails, so the error is always nil. *)
Definition hMACSHA256 (message key : list byte) : Result (list byte) unit :=
  Ok (hmac.Sum key message).

Record Validator := mkValidator {
  SigningKey : string;
  Period : option DurationPtr
}.

Definition NewValidator (signingKey : string) : Validator :=
  {| SigningKey := signingKey; Period := Some AddrValidityWindow |}.

Definition validTimestamp (w : World) (v : Validator) (ts : string) : bool :=
  match stringToTime ts with
  | Err _ => false
  | Ok t =>
      match Period v with
      | None => true
      | Some p =>
          let diff := time.Sub (time.Add (Now w) (Z.quot (load w p) 2)) t in
          (diff <? load w p) && (diff >? 0)
      end
  end.

Definition newline : string := String "010" "".

(** The format ["%s\n%s\n%s"]. *)
Definition signedFormat : string :=
  String.append "%s" (String.append newline (String.append "%s" (String.append newline "%s"))).

Definition calculateSignature (v : Validator) (ts qp : string) (b : list byte)
  : Result (list byte) unit :=
  let bh := sha256.Sum256 b in
  let m := fmt.Fprintf signedFormat [fmt.Str ts; fmt.Str qp; fmt.Bytes bh] in
  hMACSHA256 m (bytesOf (SigningKey v)).

Definition validSignature (v : Validator) (ts rqp : string) (b : list byte) (rs : string) : bool :=
  match url.Parse (String.append "?" rqp) with
  | Err _ => false
  | Ok uqp =>
      match calculateSignature v ts (url.Encode (url.Query uqp)) b with
      | Err _ => false
      | Ok es =>
          match base64.DecodeString rs with
          | Err _ => false
          | Ok drs => hmac.Equal drs es
          end
      end
  end.

(** [ValidRequest]: the error returned ([None] for nil) and the request as
    the call leaves it. *)
Definition ValidRequest (w : World) (v : Validator) (r : http.Request)
  : option string * http.Request :=
  let ts := http.Get (http.Header_ r) tsHeader in
  let rs := http.Get (http.Header_ r) sHeader in
  if String.eqb ts "" || String.eqb rs "" then
    (Some (fmt.Errorf "Unknown host: %s" [fmt.Str (http.Host r)]), r)
  else
    let '(b, body) := http.ReadAll (http.Body r) in
    let r := http.mkRequest (http.Header_ r) (http.Host r) (http.URL r) body in
    if Bool.eqb (validTimestamp w v ts) false
       || Bool.eqb (validSignature v ts (url.RawQuery (http.URL r)) b rs) false then
      (Some (fmt.Errorf "Unknown host: %s" [fmt.Str (http.Host r)]), r)
    else
      (None, http.mkRequest (http.Header_ r) (http.Host r) (http.URL r) (http.NewBuffer b)).

(** [Validate]: the handler it returns, in the world [w] in which that
    handler serves a request. *)
Definition Validate (w : World) (v : Validator) (h : http.Handler) : http.Handler :=
  fun rw r =>
    match ValidRequest w v r with
    | (Some err, _) => http.Error rw "" http.StatusUnauthorized
    | (None, r') => h rw r'
    end.

(** * Vocabulary of the statements *)

Definition int64 (z : Z) : Prop := - 2 ^ 63 <= z < 2 ^ 63.

(** Nanoseconds since January 1 of year 1. *)
Definition instant (t : time.Time) : Z := time.sec t * 1000000000 + time.nsec t.

Definition wellFormed (t : time.Time) : Prop :=
  int64 (time.sec t) /\ 0 <= time.nsec t < 1000000000.

(** A difference cut to the range of a [Duration]. *)
Definition saturate (z : Z) : Z :=
  if z <? time.minDuration then time.minDuration
  else if z >? time.maxDuration then time.maxDuration
  else z.

(** A clock whose seconds are far from the ends of the [int64] range. *)
Definition realClock (t : time.Time) : Prop :=
  - 2 ^ 62 <= time.sec t <= 2 ^ 62 /\ 0 <= time.nsec t < 1000000000.

(** Nanoseconds since the Unix epoch. *)
Definition unixNano (t : time.Time) : Z := instant t - time.unixToInternal * 1000000000.

(** The canonical query string [validSignature] signs for a raw query. *)
Definition canonicalQuery (rqp : string) : option string :=
  match url.Parse (String.append "?" rqp) with
  | Ok uqp => Some (url.Encode (url.Query uqp))
  | Err _ => None
  end.

(** Whether [url.Parse] accepts a raw query behind a question mark: no
    control byte before the first number sign, and well-formed percent
    escapes after it. *)
Definition parsable (rqp : string) : bool :=
  let '(q, frag, _) := strings.Cut "#" rqp in
  negb (url.stringContainsCTLByte q)
  && (String.eqb frag "" || isOk (url.unescape frag url.encodeFragment)).

(** The window a validator works with in a world, if it has one. *)
Definition window (w : World) (v : Validator) : option time.Duration :=
  option_map (load w) (Period v).

(** The causes of a rejection. *)
Inductive Cause :=
| MissingTimestamp
| MissingSignature
| MalformedTimestamp
| StaleOrFutureTimestamp
| MalformedSignature
| SignatureMismatch.

Definition timestampOf (r : http.Request) : string := http.Get (http.Header_ r) tsHeader.
Definition signatureOf (r : http.Request) : string := http.Get (http.Header_ r) sHeader.

(** The bytes a reader of the body would get. *)
Definition unread (r : http.Request) : list byte := fst (http.ReadAll (http.Body r)).

Definition suffers (w : World) (v : Validator) (r : http.Request) (c : Cause) : Prop :=
  match c with
  | MissingTimestamp => timestampOf r = ""
  | MissingSignature => signatureOf r = ""
  | MalformedTimestamp => isOk (stringToTime (timestampOf r)) = false
  | StaleOrFutureTimestamp =>
      isOk (stringToTime (timestampOf r)) = true
      /\ validTimestamp w v (timestampOf r) = false
  | MalformedSignature => isOk (base64.DecodeString (signatureOf r)) = false
  | SignatureMismatch =>
      validSignature v (timestampOf r) (url.RawQuery (http.URL r)) (unread r) (signatureOf r)
      = false
  end.

(** The error every rejection returns. *)
Definition unknownHost (r : http.Request) : string :=
  String.append "Unknown host: " (http.Host r).

(** A request as the server hands it over: header keys in canonical form,
    the body unread. *)
Definition inbound (headers : list (string * string)) (host rawQuery : string) (body : list byte)
  : http.Request :=
  http.mkRequest
    (fold_right (fun kv h => http.Set_ h (fst kv) (snd kv)) ∅ headers)
    host (url.mkURL "" "" "/" false rawQuery "") (http.NewBuffer body).

(** The signature of the empty body at second 1000000000 under the key
    [secret]. *)
Definition fixtureSignature : string := "y7lSmweFqLC5558DvtCkAwmVYOdlmmBgEsmMMCxJ58c=".

(** The pair a piece of a raw query adds to the values, if it adds one. *)
Definition pieceEntry (piece : string) : option (string * string) :=
  if strings.ContainsByte ";" piece then None
  else if String.eqb piece "" then None
  else
    let '(key, value, _) := strings.Cut "=" piece in
    match url.QueryUnescape key, url.QueryUnescape value with
    | Ok k, Ok x => Some (k, x)
    | _, _ => None
    end.

(** The key/value pairs of a raw query, in the order they stand in it. *)
Definition queryEntries (rawQuery : string) : list (string * string) :=
  omap pieceEntry (strings.SplitByte "&" rawQuery).


(** The values a list of pairs gives a key, in order. *)
Definition valuesOf (k : string) (ps : list (string * string)) : list string :=
  map snd (List.filter (fun p => String.eqb (fst p) k) ps).

(** [m[k] = append(m[k], x)]. *)
Definition addEntry (m : url.Values) (p : string * string) : url.Values :=
  <[fst p := url.values m (fst p) ++ [snd p]]> m.

(** Whether a string begins with a decimal digit. *)
Definition startsWithDigit (s : string) : bool :=
  match s with
  | String c _ => (48 <=? charZ c) && (charZ c <=? 57)
  | "" => false
  end.

Definition isDigit (c : ascii) : bool := (48 <=? charZ c) && (charZ c <=? 57).

Fixpoint allDigits (s : string) : bool :=
  match s with
  | "" => true
  | String c r => isDigit c && allDigits r
  end.

(** The number a string of digits writes after the digits of [acc]. *)
Fixpoint digitsValue (s : string) (acc : Z) : Z :=
  match s with
  | "" => acc
  | String c r => digitsValue r (acc * 10 + (charZ c - 48))
  end.

(** The integer a decimal numeral denotes: an optional sign, then one digit
    or more, with a value in the 64-bit range. *)
Definition decimal (s : string) : option Z :=
  match s with
  | "" => None
  | String c r =>
      let '(neg, ds) :=
        if Ascii.eqb c "+" then (false, r)
        else if Ascii.eqb c "-" then (true, r)
        else (false, s) in
      if negb (String.eqb ds "") && allDigits ds then
        let z := if neg then - digitsValue ds 0 else digitsValue ds 0 in
        if (- 2 ^ 63 <=? z) && (z <? 2 ^ 63) then Some z else None
      else None
  end.

(** The bytes [calculateSignature] signs. *)
Definition signedMessage (ts qp : string) (b : list byte) : list byte :=
  fmt.Fprintf signedFormat [fmt.Str ts; fmt.Str qp; fmt.Bytes (sha256.Sum256 b)].

(** A base64 text without its line feeds and carriage returns. *)
Fixpoint stripNewlines (s : string) : string :=
  match s with
  | "" => ""
  | String c r => if base64.isNewline c then stripNewlines r else String c (stripNewlines r)
  end.

(** What [QueryEscape] writes for one byte. *)
Definition escapeByte (c : ascii) : string := url.QueryEscape (String c "").

(** The bytes that end a piece, a key, a query, or that [url.Parse] refuses. *)
Definition delimiter (c : ascii) : bool :=
  Ascii.eqb c "&" || Ascii.eqb c "=" || Ascii.eqb c ";" || Ascii.eqb c "#" || url.isCTL c.

Fixpoint anyByte (P : ascii -> bool) (s : string) : bool :=
  match s with
  | "" => false
  | String c r => P c || anyByte P r
  end.

(** One key and one value as [Encode] writes them. *)
Definition encodedPiece (p : string * string) : string :=
  String.append (url.QueryEscape (fst p)) (String "=" (url.QueryEscape (snd p))).

(** The buffer of [Encode] after one more piece. *)
Definition addPiece (buf piece : string) : string :=
  String.append (if String.eqb buf "" then buf else String.append buf "&") piece.

(** The pairs of a map, key by key. *)
Definition entriesOf (v : url.Values) (keys : list string) : list (string * string) :=
  flat_map (fun k => map (fun x => (k, x)) (url.values v k)) keys.

(** The pieces after the first one, each behind its ampersand. *)
Fixpoint joinRest (ps : list string) : string :=
  match ps with
  | [] => ""
  | p :: ps' => String "&" (String.append p (joinRest ps'))
  end.

(** A request signed for second 1000000000 under the key [secret], with the
    query [b=2&a=1] and the body [{}]. *)
Definition signedRequest : http.Request :=
  inbound [(tsHeader, "1000000000");
           (sHeader, "J5Z/pMlZavFOumvMDh5JJKYYS7I6JXfTUfke+oxnaOM=")]
    "example.com" "b=2&a=1" (bytesOf "{}").

(** A handler that answers with what it reads from the body. *)
Definition echo : http.Handler := fun rw r => http.Write_ rw (unread r).

(** * Properties *)

(** [lia] after division and remainder by constants are turned into their
    defining equations. *)
Ltac zlia := Z.div_mod_to_equations; lia.
Ltac elia := Z.to_euclidean_division_equations; lia.

(** ** Bytes *)

Lemma byteZ_range (b : byte) : 0 <= byteZ b < 256.
Proof.
  unfold byteZ. pose proof (Byte.to_N_bounded b). lia.
Qed.

Lemma land_255 (z : Z) : Z.land z 255 = z mod 256.
Proof. change 255 with (Z.ones 8). rewrite Z.land_ones by lia. reflexivity. Qed.

Lemma land_63 (z : Z) : Z.land z 63 = z mod 64.
Proof. change 63 with (Z.ones 6). rewrite Z.land_ones by lia. reflexivity. Qed.

Lemma Zbyte_byteZ (b : byte) : Zbyte (byteZ b) = b.
Proof.
  unfold Zbyte. rewrite land_255, Z.mod_small by apply byteZ_range.
  unfold byteZ. rewrite N2Z.id, Byte.of_to_N. reflexivity.
Qed.

Lemma byteZ_inj (a b : byte) : byteZ a = byteZ b -> a = b.
Proof. intros H. rewrite <- (Zbyte_byteZ a), <- (Zbyte_byteZ b), H. reflexivity. Qed.

(** Or of a shifted value with a value below the shift is their sum. *)
Lemma lor_shiftl_add (hi lo k : Z) :
  0 <= k -> 0 <= lo < 2 ^ k -> Z.lor (Z.shiftl hi k) lo = hi * 2 ^ k + lo.
Proof.
  intros Hk Hlo.
  assert (Hdisj : Z.land (Z.shiftl hi k) lo = 0).
  { apply Z.bits_inj'; intros i Hi. rewrite Z.land_spec, Z.bits_0.
    destruct (Z.ltb_spec i k).
    - rewrite Z.shiftl_spec_low by lia. reflexivity.
    - rewrite <- (Z.mod_small lo (2 ^ k)) by lia.
      rewrite Z.mod_pow2_bits_high by lia. apply andb_false_r. }
  rewrite <- Z.lxor_lor, <- Z.add_nocarry_lxor, Z.shiftl_mul_pow2 by assumption.
  reflexivity.
Qed.

(** ** hmac.Equal decides equality *)

Lemma accumulate_zero (x y : list byte) (v : Z) :
  length x = length y ->
  (hmac.accumulate v x y = 0 <-> v = 0 /\ x = y).
Proof.
  revert y v. induction x as [|a x IH]; intros [|b y] v Hlen; simpl in *; try discriminate.
  - intuition.
  - injection Hlen as Hlen. rewrite (IH y _ Hlen), Z.lor_eq_0_iff, Z.lxor_eq_0_iff.
    split.
    + intros [[Hv Hab] Hxy]. apply byteZ_inj in Hab. subst. auto.
    + intros [Hv Heq]. injection Heq as -> ->. auto.
Qed.

Lemma Equal_iff (x y : list byte) : hmac.Equal x y = true <-> x = y.
Proof.
  unfold hmac.Equal, hmac.ConstantTimeCompare.
  destruct (Nat.eqb_spec (length x) (length y)) as [Hlen|Hlen]; simpl.
  - pose proof (accumulate_zero x y 0 Hlen) as Hz.
    destruct (Z.eqb_spec (hmac.accumulate 0 x y) 0) as [H0|H0]; simpl.
    + split; [intros _; apply Hz; assumption | reflexivity].
    + split; [discriminate | intros ->; exfalso; apply H0, Hz; auto].
  - split; [discriminate | intros ->; contradiction].
Qed.

Lemma Equal_refl (x : list byte) : hmac.Equal x x = true.
Proof. apply Equal_iff. reflexivity. Qed.

(** ** base64: decoding an encoding gives the bytes back *)

Lemma list_ind3 {A} (P : list A -> Prop) :
  P [] -> (forall a, P [a]) -> (forall a b, P [a; b]) ->
  (forall a b c l, P l -> P (a :: b :: c :: l)) ->
  forall l, P l.
Proof.
  intros H0 H1 H2 H3. fix IH 1.
  intros [|a [|b [|c l]]]; [exact H0 | apply H1 | apply H2 | apply H3, IH].
Qed.

Lemma decodeMap_encode (n : Z) :
  0 <= n < 64 -> base64.decodeMap (base64.encode n) = n.
Proof.
  intros Hn.
  assert (Hall : forallb (fun k => base64.decodeMap (base64.encode (Z.of_nat k)) =? Z.of_nat k)
                   (seq 0 64) = true) by (vm_compute; reflexivity).
  rewrite forallb_forall in Hall.
  specialize (Hall (Z.to_nat n)). rewrite Z2Nat.id in Hall by lia.
  apply Z.eqb_eq, Hall, in_seq. lia.
Qed.

Lemma sextet_range (val k : Z) : 0 <= Z.land (Z.shiftr val k) 63 < 64.
Proof. rewrite land_63. apply Z.mod_pos_bound. lia. Qed.

(** Reading one character of the alphabet. *)
Lemma decode_sextet (val k : Z) (rest : string) (dbuf : list Z) :
  base64.decode (String (base64.sextet val k) rest) dbuf =
  let dbuf' := dbuf ++ [Z.land (Z.shiftr val k) 63] in
  if (length dbuf' =? 4)%nat then
    match base64.decode rest [] with
    | Ok tl => Ok (base64.emit 3 dbuf' ++ tl)
    | Err e => Err e
    end
  else base64.decode rest dbuf'.
Proof.
  unfold base64.sextet. pose proof (sextet_range val k) as Hr.
  cbn [base64.decode]. rewrite decodeMap_encode by assumption.
  destruct (Z.eqb_spec (Z.land (Z.shiftr val k) 63) 255) as [E|E]; [lia|].
  reflexivity.
Qed.

Lemma quantum_value (a b c : byte) :
  base64.quantum a b c = byteZ a * 65536 + byteZ b * 256 + byteZ c.
Proof.
  pose proof (byteZ_range a). pose proof (byteZ_range b). pose proof (byteZ_range c).
  unfold base64.quantum.
  rewrite (lor_shiftl_add (byteZ a) (Z.shiftl (byteZ b) 8) 16) by (rewrite ?Z.shiftl_mul_pow2; lia).
  rewrite Z.shiftl_mul_pow2 by lia.
  replace (byteZ a * 2 ^ 16 + byteZ b * 2 ^ 8) with (Z.shiftl (byteZ a * 256 + byteZ b) 8)
    by (rewrite Z.shiftl_mul_pow2; lia).
  rewrite lor_shiftl_add by lia. lia.
Qed.

Lemma assemble_value (s0 s1 s2 s3 : Z) :
  0 <= s1 < 64 -> 0 <= s2 < 64 -> 0 <= s3 < 64 ->
  base64.assemble [s0; s1; s2; s3] = s0 * 262144 + s1 * 4096 + s2 * 64 + s3.
Proof.
  intros H1 H2 H3. unfold base64.assemble. cbn [nth].
  rewrite (lor_shiftl_add s0 (Z.shiftl s1 12) 18) by (rewrite ?Z.shiftl_mul_pow2; lia).
  rewrite !(Z.shiftl_mul_pow2 s1), !(Z.shiftl_mul_pow2 s2) by lia.
  replace (s0 * 2 ^ 18 + s1 * 2 ^ 12) with (Z.shiftl (s0 * 64 + s1) 12)
    by (rewrite Z.shiftl_mul_pow2; lia).
  rewrite (lor_shiftl_add _ (s2 * 2 ^ 6) 12) by lia.
  replace ((s0 * 64 + s1) * 2 ^ 12 + s2 * 2 ^ 6) with (Z.shiftl ((s0 * 64 + s1) * 64 + s2) 6)
    by (rewrite Z.shiftl_mul_pow2; lia).
  rewrite lor_shiftl_add by lia. lia.
Qed.

Lemma Zbyte_eq (z : Z) (a : byte) : z mod 256 = byteZ a -> Zbyte z = a.
Proof.
  intros H. rewrite <- (Zbyte_byteZ a), <- H. unfold Zbyte.
  rewrite !land_255, Z.mod_mod by lia. reflexivity.
Qed.

Lemma emit_full (a b c : byte) :
  let val := base64.quantum a b c in
  base64.emit 3 [Z.land (Z.shiftr val 18) 63; Z.land (Z.shiftr val 12) 63;
                 Z.land (Z.shiftr val 6) 63; Z.land (Z.shiftr val 0) 63] = [a; b; c].
Proof.
  intros val. unfold base64.emit.
  rewrite assemble_value by apply sextet_range.
  subst val. rewrite quantum_value.
  pose proof (byteZ_range a). pose proof (byteZ_range b). pose proof (byteZ_range c).
  rewrite !land_63, !Z.shiftr_div_pow2 by lia. cbn [firstn].
  f_equal; [|f_equal; [|f_equal]]; apply Zbyte_eq;
    change (2 ^ 18) with 262144; change (2 ^ 16) with 65536; change (2 ^ 12) with 4096;
    change (2 ^ 8) with 256; change (2 ^ 6) with 64; change (2 ^ 0) with 1; zlia.
Qed.

Lemma emit_one (a : byte) :
  let val := Z.shiftl (byteZ a) 16 in
  base64.emit 1 [Z.land (Z.shiftr val 18) 63; Z.land (Z.shiftr val 12) 63] = [a].
Proof.
  intros val. unfold base64.emit.
  change (base64.assemble [Z.land (Z.shiftr val 18) 63; Z.land (Z.shiftr val 12) 63])
    with (base64.assemble [Z.land (Z.shiftr val 18) 63; Z.land (Z.shiftr val 12) 63; 0; 0]).
  rewrite assemble_value by (try apply sextet_range; lia).
  subst val. pose proof (byteZ_range a).
  rewrite !land_63, !Z.shiftr_div_pow2, Z.shiftl_mul_pow2 by lia. cbn [firstn].
  f_equal. apply Zbyte_eq.
  change (2 ^ 18) with 262144; change (2 ^ 16) with 65536; change (2 ^ 12) with 4096. zlia.
Qed.

Lemma emit_two (a b : byte) :
  let val := Z.lor (Z.shiftl (byteZ a) 16) (Z.shiftl (byteZ b) 8) in
  base64.emit 2 [Z.land (Z.shiftr val 18) 63; Z.land (Z.shiftr val 12) 63;
                 Z.land (Z.shiftr val 6) 63] = [a; b].
Proof.
  intros val. unfold base64.emit.
  change (base64.assemble [Z.land (Z.shiftr val 18) 63; Z.land (Z.shiftr val 12) 63;
                           Z.land (Z.shiftr val 6) 63])
    with (base64.assemble [Z.land (Z.shiftr val 18) 63; Z.land (Z.shiftr val 12) 63;
                           Z.land (Z.shiftr val 6) 63; 0]).
  rewrite assemble_value by (try apply sextet_range; lia).
  pose proof (byteZ_range a). pose proof (byteZ_range b).
  assert (Hval : val = byteZ a * 65536 + byteZ b * 256).
  { subst val. rewrite lor_shiftl_add by (rewrite ?Z.shiftl_mul_pow2; lia).
    rewrite Z.shiftl_mul_pow2 by lia. lia. }
  rewrite Hval, !land_63, !Z.shiftr_div_pow2 by lia. cbn [firstn].
  f_equal; [|f_equal]; apply Zbyte_eq;
    change (2 ^ 18) with 262144; change (2 ^ 16) with 65536; change (2 ^ 12) with 4096;
    change (2 ^ 8) with 256; change (2 ^ 6) with 64; zlia.
Qed.

Lemma decode_padding_two (s0 s1 : Z) :
  base64.decode (String base64.padChar (String base64.padChar "")) [s0; s1]
  = Ok (base64.emit 1 [s0; s1]).
Proof. reflexivity. Qed.

Lemma decode_padding_one (s0 s1 s2 : Z) :
  base64.decode (String base64.padChar "") [s0; s1; s2] = Ok (base64.emit 2 [s0; s1; s2]).
Proof. reflexivity. Qed.

(** [DecodeString] undoes [EncodeToString]. *)
Lemma DecodeString_EncodeToString (src : list byte) :
  base64.DecodeString (base64.EncodeToString src) = Ok src.
Proof.
  unfold base64.DecodeString.
  induction src as [|a|a b|a b c src IH] using list_ind3.
  - reflexivity.
  - cbn [base64.EncodeToString].
    repeat (rewrite decode_sextet; cbv zeta; cbn [length app Nat.eqb]).
    rewrite decode_padding_two. f_equal. apply emit_one.
  - cbn [base64.EncodeToString].
    repeat (rewrite decode_sextet; cbv zeta; cbn [length app Nat.eqb]).
    rewrite decode_padding_one. f_equal. apply emit_two.
  - cbn [base64.EncodeToString].
    repeat (rewrite decode_sextet; cbv zeta; cbn [length app Nat.eqb]).
    rewrite IH. pose proof (emit_full a b c) as He. cbv zeta in He. rewrite He. reflexivity.
Qed.

(** ** The algorithms are the standard ones *)

(** FIPS 180-4 vectors for SHA-256: the empty message, a one-block message
    and a two-block message. *)
Example Sum256_vectors :
  hex.EncodeToString (sha256.Sum256 [])
    = "e3b0c44298fc1c149afbf4c8996fb92427ae41e4649b934ca495991b7852b855"
  /\ hex.EncodeToString (sha256.Sum256 (bytesOf "abc"))
    = "ba7816bf8f01cfea414140de5dae2223b00361a396177a9cb410ff61f20015ad"
  /\ hex.EncodeToString
       (sha256.Sum256 (bytesOf "abcdbcdecdefdefgefghfghighijhijkijkljklmklmnlmnomnopnopq"))
    = "248d6a61d20638b8e5c026930c3e6039a33ce45964ff2167f6ecedd419db06c1".
Proof. vm_compute. auto. Qed.

(** RFC 4231 vectors for HMAC-SHA256: a short key (test case 2) and a key
    longer than the block size (test case 6). *)
Example hmac_vectors :
  hex.EncodeToString (hmac.Sum (bytesOf "Jefe") (bytesOf "what do ya want for nothing?"))
    = "5bdcc146bf60754e6a042426089575c75a003f089d2739839dec58b964ec3843"
  /\ hex.EncodeToString
       (hmac.Sum (repeat xaa 131)
          (bytesOf "Test Using Larger Than Block-Size Key - Hash Key First"))
    = "60e431591ee0b67f0d8a26aacbf5b77f8e0bc6213728c5140546040f0ee37f54".
Proof. vm_compute. auto. Qed.

(** ** The signed message *)

Lemma Fprintf_signedFormat (ts qp : string) (bh : list byte) :
  fmt.Fprintf signedFormat [fmt.Str ts; fmt.Str qp; fmt.Bytes bh]
  = bytesOf ts ++ x0a :: bytesOf qp ++ x0a :: bh.
Proof.
  cbv [signedFormat newline String.append]. cbn. rewrite app_nil_r. reflexivity.
Qed.

Lemma calculateSignature_eq (v : Validator) (ts qp : string) (b : list byte) :
  calculateSignature v ts qp b
  = Ok (hmac.Sum (bytesOf (SigningKey v))
          (bytesOf ts ++ x0a :: bytesOf qp ++ x0a :: sha256.Sum256 b)).
Proof.
  unfold calculateSignature, hMACSHA256. rewrite Fprintf_signedFormat. reflexivity.
Qed.

(** Claim C3.  The message signed by [calculateSignature] is the timestamp,
    a line feed, the canonical query, a line feed and the 32 raw bytes of the
    SHA-256 digest of the body, and the signature is its HMAC-SHA256 under
    the signing key.  For the key [secret], the timestamp [1000000000], an
    empty query and an empty body the base64 signature is
    [y7lSmweFqLC5558DvtCkAwmVYOdlmmBgEsmMMCxJ58c=]; it verifies, and it is
    not the signature of the message that carries the digest in hex. *)
Theorem calculateSignature_layout :
  (forall (v : Validator) (ts qp : string) (b : list byte),
      calculateSignature v ts qp b
      = Ok (hmac.Sum (bytesOf (SigningKey v))
              (bytesOf ts ++ bytesOf newline ++ bytesOf qp ++ bytesOf newline
                 ++ sha256.Sum256 b)))
  /\ (exists es,
        calculateSignature (NewValidator "secret") "1000000000" "" [] = Ok es
        /\ length es = 32%nat
        /\ base64.EncodeToString es = "y7lSmweFqLC5558DvtCkAwmVYOdlmmBgEsmMMCxJ58c="
        /\ base64.EncodeToString es
           <> base64.EncodeToString
                (hmac.Sum (bytesOf "secret")
                   (bytesOf "1000000000" ++ bytesOf newline ++ bytesOf newline
                      ++ bytesOf (hex.EncodeToString (sha256.Sum256 [])))))
  /\ validSignature (NewValidator "secret") "1000000000" "" []
       "y7lSmweFqLC5558DvtCkAwmVYOdlmmBgEsmMMCxJ58c=" = true.
Proof.
  split; [|split].
  - intros v ts qp b. apply calculateSignature_eq.
  - eexists. split; [apply calculateSignature_eq|].
    vm_compute. repeat split. discriminate.
  - vm_compute. reflexivity.
Qed.

(** ** The reference parsed by [validSignature] *)

Lemma CountByte_nonneg (c : ascii) (s : string) : 0 <= strings.CountByte c s.
Proof. induction s as [|x s IH]; cbn [strings.CountByte]; [lia|]. destruct (Ascii.eqb x c); lia. Qed.

Lemma HasSuffixByte_count (c : ascii) (s : string) :
  strings.HasSuffixByte s c = true -> 1 <= strings.CountByte c s.
Proof.
  induction s as [|x s IH]; cbn [strings.HasSuffixByte strings.CountByte]; [discriminate|].
  pose proof (CountByte_nonneg c s) as Hc. destruct s as [|y s].
  - intros ->. cbn. lia.
  - intros Hs. specialize (IH Hs). destruct (Ascii.eqb x c); lia.
Qed.

(** What [parse] makes of a question mark followed by a query with no
    number sign: no scheme, no path, the query as it is. *)
Lemma parse_question (q : string) :
  url.parse (String "?" q) =
  if url.stringContainsCTLByte q then Err url.InvalidControlCharacter
  else Ok (url.mkURL "" "" "" (String.eqb q "") q "").
Proof.
  unfold url.parse. cbn [url.stringContainsCTLByte].
  change (url.isCTL "?") with false. cbn [orb].
  destruct (url.stringContainsCTLByte q); [reflexivity|].
  replace (String.eqb (String "?" q) "*") with false by reflexivity.
  change (url.getScheme (String "?" q)) with (@Ok _ url.Error ("", String "?" q)).
  cbv iota beta. change (strings.ToLower "") with "".
  destruct q as [|c q]; [reflexivity|].
  assert (Hcond : strings.HasSuffixByte (String "?" (String c q)) "?"
                  && (strings.CountByte "?" (String "?" (String c q)) =? 1) = false).
  { destruct (strings.HasSuffixByte (String "?" (String c q)) "?") eqn:Hs; [|reflexivity].
    change (strings.HasSuffixByte (String "?" (String c q)) "?")
      with (strings.HasSuffixByte (String c q) "?") in Hs.
    apply HasSuffixByte_count in Hs.
    change (strings.CountByte "?" (String "?" (String c q)))
      with (1 + strings.CountByte "?" (String c q)).
    cbn [andb]. apply Z.eqb_neq. lia. }
  rewrite Hcond. reflexivity.
Qed.

Lemma Cut_question (rqp : string) :
  strings.Cut "#" (String "?" rqp) =
  let '(q, frag, found) := strings.Cut "#" rqp in (String "?" q, frag, found).
Proof. reflexivity. Qed.

(** [url.Parse] on the reference [validSignature] builds. *)
Lemma Parse_question (rqp : string) :
  url.Parse (String.append "?" rqp) =
  let '(q, frag, _) := strings.Cut "#" rqp in
  if url.stringContainsCTLByte q then Err url.InvalidControlCharacter
  else if String.eqb frag "" then Ok (url.mkURL "" "" "" (String.eqb q "") q "")
  else
    match url.unescape frag url.encodeFragment with
    | Ok f => Ok (url.mkURL "" "" "" (String.eqb q "") q f)
    | Err e => Err e
    end.
Proof.
  change (String.append "?" rqp) with (String "?" rqp).
  unfold url.Parse. rewrite Cut_question.
  destruct (strings.Cut "#" rqp) as [[q frag] found].
  rewrite parse_question. destruct (url.stringContainsCTLByte q); [reflexivity|].
  destruct (String.eqb frag ""); [reflexivity|].
  destruct (url.unescape frag url.encodeFragment); reflexivity.
Qed.

Lemma canonicalQuery_parsable (rqp : string) :
  parsable rqp = true <-> canonicalQuery rqp <> None.
Proof.
  unfold parsable, canonicalQuery. rewrite Parse_question.
  destruct (strings.Cut "#" rqp) as [[q frag] found].
  destruct (url.stringContainsCTLByte q); cbn [negb andb]; [intuition congruence|].
  destruct (String.eqb frag ""); cbn [orb]; [intuition congruence|].
  destruct (url.unescape frag url.encodeFragment); cbn [isOk]; intuition congruence.
Qed.

(** ** Round trip *)

Lemma validSignature_canonical (v : Validator) (ts rqp : string) (b : list byte) (rs qp : string) :
  canonicalQuery rqp = Some qp ->
  validSignature v ts rqp b rs =
  match base64.DecodeString rs with
  | Ok drs => hmac.Equal drs (hmac.Sum (bytesOf (SigningKey v))
                (bytesOf ts ++ x0a :: bytesOf qp ++ x0a :: sha256.Sum256 b))
  | Err _ => false
  end.
Proof.
  unfold canonicalQuery, validSignature.
  destruct (url.Parse _) as [uqp|e]; [|discriminate].
  intros [= <-]. rewrite calculateSignature_eq. reflexivity.
Qed.

Lemma validSignature_unparsable (v : Validator) (ts rqp : string) (b : list byte) (rs : string) :
  canonicalQuery rqp = None -> validSignature v ts rqp b rs = false.
Proof.
  unfold canonicalQuery, validSignature.
  destruct (url.Parse _); [discriminate | reflexivity].
Qed.

(** Claim C1, as amended.  For every key, timestamp and body, and every raw
    query string that [url.Parse] accepts behind a question mark (no control
    byte before its first number sign, well-formed percent escapes after
    it), the canonical query exists, [calculateSignature] computes a
    signature over it, and the base64 encoding of that signature is accepted
    by [validSignature]. *)
Theorem validSignature_roundtrip (v : Validator) (ts rqp : string) (b : list byte) :
  parsable rqp = true ->
  exists qp es,
    canonicalQuery rqp = Some qp
    /\ calculateSignature v ts qp b = Ok es
    /\ validSignature v ts rqp b (base64.EncodeToString es) = true.
Proof.
  intros Hp. apply canonicalQuery_parsable in Hp.
  destruct (canonicalQuery rqp) as [qp|] eqn:Hq; [|contradiction].
  exists qp. eexists. split; [reflexivity|]. split; [apply calculateSignature_eq|].
  rewrite (validSignature_canonical _ _ _ _ _ _ Hq), DecodeString_EncodeToString.
  apply Equal_refl.
Qed.

Lemma validSignature_roundtrip_witness :
  parsable "b=2&a=1" = true
  /\ exists qp es,
       canonicalQuery "b=2&a=1" = Some qp
       /\ calculateSignature (NewValidator "secret") "1000000000" qp (bytesOf "{}") = Ok es
       /\ validSignature (NewValidator "secret") "1000000000" "b=2&a=1" (bytesOf "{}")
            (base64.EncodeToString es) = true.
Proof.
  split; [vm_compute; reflexivity|].
  apply (validSignature_roundtrip (NewValidator "secret") "1000000000" "b=2&a=1" (bytesOf "{}")).
  vm_compute. reflexivity.
Defined.

(** Claim C1 as stated fails: a raw query whose fragment part has a broken
    percent escape is refused by [url.Parse], and then no signature at all
    is accepted. *)
Lemma validSignature_roundtrip_counterexample :
  url.Parse "?#%zz" = Err url.EscapeError
  /\ parsable "#%zz" = false
  /\ ~ (forall (v : Validator) (ts rqp : string) (b : list byte),
          exists qp es,
            calculateSignature v ts qp b = Ok es
            /\ validSignature v ts rqp b (base64.EncodeToString es) = true).
Proof.
  split; [vm_compute; reflexivity|]. split; [vm_compute; reflexivity|].
  intros H. destruct (H (NewValidator "secret") "1000000000" "#%zz" []) as (qp & es & _ & Hv).
  rewrite validSignature_unparsable in Hv by (vm_compute; reflexivity). discriminate.
Qed.

(** ** Time arithmetic *)

Lemma wrap64_range z : int64 (time.wrap64 z).
Proof. unfold int64, time.wrap64. elia. Qed.

Lemma wrap64_small z : int64 z -> time.wrap64 z = z.
Proof. unfold int64, time.wrap64. intros. elia. Qed.

Lemma wrap64_congr z : exists k, time.wrap64 z = z + 2 ^ 64 * k.
Proof.
  unfold time.wrap64. exists (- ((z + 2 ^ 63) / 2 ^ 64)). elia.
Qed.

Lemma instant_inj t u : wellFormed t -> wellFormed u -> instant t = instant u -> time.Equal t u = true.
Proof.
  unfold wellFormed, instant, time.Equal. intros [_ Ht] [_ Hu] H.
  apply andb_true_intro. split; apply Z.eqb_eq; lia.
Qed.

Lemma Equal_instant t u : time.Equal t u = true -> instant t = instant u.
Proof.
  unfold instant, time.Equal. intros H. apply andb_prop in H as [H1 H2].
  apply Z.eqb_eq in H1, H2. lia.
Qed.

Lemma Before_instant t u : wellFormed t -> wellFormed u ->
  time.Before t u = (instant t <? instant u).
Proof.
  unfold wellFormed, instant, time.Before. intros [_ Ht] [_ Hu].
  destruct (Z.ltb_spec (time.sec t) (time.sec u)); simpl.
  - symmetry. apply Z.ltb_lt. lia.
  - destruct (Z.eqb_spec (time.sec t) (time.sec u)); simpl.
    + destruct (Z.ltb_spec (time.nsec t) (time.nsec u)); symmetry;
        [apply Z.ltb_lt | apply Z.ltb_ge]; lia.
    + symmetry. apply Z.ltb_ge. lia.
Qed.

(** [Add] is exact when the seconds of the sum fit, and pins the seconds at
    an end of the range when they do not. *)
Lemma Add_spec t d :
  wellFormed t -> int64 d ->
  let r := time.Add t d in
  0 <= time.nsec r < 1000000000
  /\ ((int64 ((instant t + d) / 1000000000) /\ instant r = instant t + d /\ int64 (time.sec r))
      \/ (~ int64 ((instant t + d) / 1000000000)
          /\ (time.sec r = 2 ^ 63 - 1 \/ time.sec r = - (2 ^ 63 - 1)))).
Proof.
  intros [Hs Hn] Hd r. subst r. unfold int64, instant in *.
  unfold time.Add.
  set (dsec := Z.quot d 1000000000). set (rem := Z.rem d 1000000000).
  assert (Hq : d = dsec * 1000000000 + rem /\ -1000000000 < rem < 1000000000
               /\ - 9223372037 <= dsec <= 9223372037).
  { subst dsec rem. elia. }
  clearbody dsec rem. destruct Hq as (-> & Hrem & Hdsec).
  destruct (Z.geb_spec (time.nsec t + rem) 1000000000) as [H1|H1];
    [|destruct (Z.ltb_spec (time.nsec t + rem) 0) as [H2|H2]];
    unfold time.addSec; cbn [time.sec time.nsec];
    match goal with |- context [time.wrap64 ?z] =>
      destruct (wrap64_congr z) as [k Hk]; pose proof (wrap64_range z) as Hr;
      unfold int64 in Hr; set (sum := time.wrap64 z) in *; clearbody sum end;
    match goal with |- context [(?a >? ?b)] => destruct (Z.gtb_spec a b) end;
    match goal with |- context [(?a >? ?b)] => destruct (Z.gtb_spec a b) end;
    cbn [Bool.eqb time.sec time.nsec];
    (split; [lia|]); elia.
Qed.

(** [Sub] is the saturated difference of the instants, for a [t] whose
    seconds are not at an end of the range. *)
Lemma Sub_spec t u :
  wellFormed t -> wellFormed u ->
  - (2 ^ 63 - 1) < time.sec t < 2 ^ 63 - 1 ->
  time.Sub t u = saturate (instant t - instant u).
Proof.
  intros Ht Hu Hb. unfold time.Sub.
  set (d := time.wrap64 _).
  assert (Hd : int64 d) by apply wrap64_range.
  assert (Hk : exists k, d = instant t - instant u + 2 ^ 64 * k).
  { subst d. unfold instant, time.Second.
    destruct (wrap64_congr (time.sec t - time.sec u)) as [k1 ->].
    destruct (wrap64_congr (time.nsec t - time.nsec u)) as [k2 ->].
    destruct (wrap64_congr ((time.sec t - time.sec u + 2 ^ 64 * k1) * 1000000000)) as [k3 ->].
    match goal with |- context [time.wrap64 ?z] => destruct (wrap64_congr z) as [k4 ->] end.
    exists (k1 * 1000000000 + k2 + k3 + k4). lia. }
  clearbody d. destruct Hk as [k Hk].
  destruct (Add_spec u d Hu Hd) as [Hn Hcases].
  rewrite (Before_instant t u Ht Hu).
  unfold saturate, time.minDuration, time.maxDuration.
  destruct (time.Equal (time.Add u d) t) eqn:HE.
  - apply Equal_instant in HE.
    assert (Hsec : time.sec (time.Add u d) = time.sec t).
    { unfold instant in HE. destruct Ht as [_ Ht]. lia. }
    destruct Hcases as [(_ & Hex & _)|(_ & Hsat)]; [|lia].
    unfold int64 in Hd.
    destruct (Z.ltb_spec (instant t - instant u) (- 2 ^ 63)); [lia|].
    destruct (Z.gtb_spec (instant t - instant u) (2 ^ 63 - 1)); lia.
  - assert (Hout : ~ int64 (instant t - instant u)).
    { intros HD. unfold int64 in HD, Hd. assert (k = 0) by lia. subst k.
      assert (Hsum : instant u + d = instant t) by lia.
      destruct Hcases as [(_ & Hex & Hs)|(Hno & _)].
      - rewrite (instant_inj (time.Add u d) t) in HE; [discriminate| |assumption|lia].
        split; assumption.
      - apply Hno. rewrite Hsum. unfold instant. destruct Ht as [Hs Hns].
        unfold int64 in *. elia. }
    unfold int64 in Hout.
    destruct (Z.ltb_spec (instant t) (instant u));
      destruct (Z.ltb_spec (instant t - instant u) (- 2 ^ 63)); try lia;
      destruct (Z.gtb_spec (instant t - instant u) (2 ^ 63 - 1)); lia.
Qed.

Lemma parseDigits_nonneg s n m : 0 <= n -> strconv.parseDigits s n = Ok m -> 0 <= m.
Proof.
  revert n. induction s as [|c s IH]; intros n Hn; cbn [strconv.parseDigits].
  - intros [= <-]. assumption.
  - cbv zeta. destruct (_ && _); [|destruct (_ && _); discriminate].
    destruct (_ >=? _); [discriminate|].
    destruct (_ || _); [discriminate|].
    apply IH. apply Z.mod_pos_bound. lia.
Qed.

Lemma ParseInt_int64 s t : strconv.ParseInt s = Ok t -> int64 t.
Proof.
  unfold strconv.ParseInt. destruct s as [|c s]; [discriminate|].
  set (p := if Ascii.eqb c "+" then _ else _). destruct p as [neg s'].
  assert (Hun : forall un, strconv.ParseUint s' = Ok un -> 0 <= un).
  { intros un. unfold strconv.ParseUint. destruct s'; [discriminate|].
    apply parseDigits_nonneg. lia. }
  destruct (strconv.ParseUint s') as [un|[|]]; [specialize (Hun un eq_refl)|discriminate|];
    unfold int64, strconv.maxUint64; destruct neg; cbn [negb andb];
    repeat match goal with
           | |- context [(?a >=? ?b)] => destruct (Z.geb_spec a b)
           | |- context [(?a >? ?b)] => destruct (Z.gtb_spec a b)
           end; try discriminate; intros [= <-]; lia.
Qed.

Lemma saturate_window (x W : Z) :
  int64 W -> (saturate x <? W) && (saturate x >? 0) = true <-> 0 < x < W.
Proof.
  unfold int64, saturate, time.minDuration, time.maxDuration. intros HW.
  destruct (Z.ltb_spec x (- 2 ^ 63)); [|destruct (Z.gtb_spec x (2 ^ 63 - 1))];
    match goal with |- context [(?a <? ?b)] => destruct (Z.ltb_spec a b) end;
    match goal with |- context [(?a >? ?b)] => destruct (Z.gtb_spec a b) end;
    cbn [andb]; split; try discriminate; try reflexivity; lia.
Qed.

Lemma Unix_whole (s : Z) : time.Unix s 0 = time.mkTime (time.wrap64 (s + time.unixToInternal)) 0.
Proof. reflexivity. Qed.

Lemma validTimestamp_spec (w : World) (v : Validator) (p : DurationPtr) (ts : string) (t : Z) :
  Period v = Some p ->
  strconv.ParseInt ts = Ok t ->
  realClock (Now w) ->
  int64 (load w p) ->
  validTimestamp w v ts = true
  <-> 0 < unixNano (Now w) + Z.quot (load w p) 2 - t * 1000000000 < load w p.
Proof.
  intros Hp Hts [Hsec Hnsec] HW. pose proof (ParseInt_int64 _ _ Hts) as Ht.
  unfold validTimestamp, stringToTime. rewrite Hts, Hp.
  set (W := load w p) in *. clearbody W.
  assert (Hq : int64 (Z.quot W 2)) by (unfold int64 in *; elia).
  assert (Hnow : wellFormed (Now w)) by (split; [unfold int64; lia | assumption]).
  destruct (Add_spec (Now w) (Z.quot W 2) Hnow Hq) as [Hn Hcases].
  set (T := time.Add (Now w) (Z.quot W 2)) in *. clearbody T.
  assert (Hexact : int64 ((instant (Now w) + Z.quot W 2) / 1000000000)
                   /\ - 2 ^ 62 - 2 ^ 34 <= (instant (Now w) + Z.quot W 2) / 1000000000
                      <= 2 ^ 62 + 2 ^ 34).
  { unfold instant, int64 in *. elia. }
  destruct Hcases as [(_ & HT & HTs)|(Hno & _)]; [|tauto].
  assert (HsecT : time.sec T = (instant (Now w) + Z.quot W 2) / 1000000000).
  { rewrite <- HT. unfold instant. elia. }
  rewrite Sub_spec; [|split; assumption| |lia].
  2:{ rewrite Unix_whole. split; cbn [time.sec time.nsec]; [apply wrap64_range|lia]. }
  assert (Hu : exists k, instant (time.Unix t 0) = (t + time.unixToInternal + 2 ^ 64 * k) * 1000000000
                         /\ int64 (t + time.unixToInternal + 2 ^ 64 * k)).
  { rewrite Unix_whole. unfold instant. cbn [time.sec time.nsec].
    destruct (wrap64_congr (t + time.unixToInternal)) as [k Hk]. exists k.
    pose proof (wrap64_range (t + time.unixToInternal)) as Hr. rewrite Hk in *. split; [lia|assumption]. }
  destruct Hu as (k & -> & Hk).
  rewrite saturate_window by assumption.
  unfold unixNano.
  destruct Hexact as [_ Hbound]. rewrite <- HsecT in Hbound.
  assert (HiT : instant T = time.sec T * 1000000000 + time.nsec T) by reflexivity.
  unfold int64 in *. change time.unixToInternal with 62135596800 in *.
  assert (Hk01 : k = 0 \/ k = -1) by lia.
  destruct Hk01; subst k; lia.
Qed.

(** ** Freshness *)

(** Claim C2, as amended.  For a validator with a configured window [W], a
    clock far from the ends of the representable range and a timestamp that
    parses as the integer [t], [validTimestamp] accepts exactly when
    [0 < (now + W/2) - t < W], both strict and in nanoseconds, the half
    rounded toward zero.  A difference of [0] or of [W] is rejected, and a
    timestamp equal to the clock is accepted when [W] is at least two
    nanoseconds. *)
Theorem validTimestamp_window (w : World) (v : Validator) (p : DurationPtr) (ts : string) (t : Z) :
  Period v = Some p ->
  strconv.ParseInt ts = Ok t ->
  realClock (Now w) ->
  int64 (load w p) ->
  let W := load w p in
  let diff := unixNano (Now w) + Z.quot W 2 - t * 1000000000 in
  (validTimestamp w v ts = true <-> 0 < diff < W)
  /\ (diff = 0 -> validTimestamp w v ts = false)
  /\ (diff = W -> validTimestamp w v ts = false)
  /\ (2 <= W -> unixNano (Now w) = t * 1000000000 -> validTimestamp w v ts = true).
Proof.
  intros Hp Hts Hclock HW W diff.
  pose proof (validTimestamp_spec w v p ts t Hp Hts Hclock HW) as Hiff.
  fold W in Hiff. fold diff in Hiff.
  split; [exact Hiff|]. split; [|split].
  - intros H0. destruct (validTimestamp w v ts); [|reflexivity].
    assert (0 < diff < W) by (apply Hiff; reflexivity). lia.
  - intros H0. destruct (validTimestamp w v ts); [|reflexivity].
    assert (0 < diff < W) by (apply Hiff; reflexivity). lia.
  - intros H2 Hnow. apply Hiff. subst diff. rewrite Hnow. elia.
Qed.

Lemma validTimestamp_window_witness :
  let w := initWorld (time.Unix 1000000000 0) in
  validTimestamp w (NewValidator "secret") "1000000000" = true
  /\ validTimestamp w (NewValidator "secret") "999999997" = false.
Proof.
  intros w.
  assert (Hclock : realClock (Now w)) by (vm_compute; intuition discriminate).
  assert (HW : int64 (load w AddrValidityWindow)) by (vm_compute; intuition discriminate).
  split.
  - apply (validTimestamp_window w (NewValidator "secret") AddrValidityWindow
             "1000000000" 1000000000 eq_refl eq_refl Hclock HW).
    + vm_compute. discriminate.
    + vm_compute. reflexivity.
  - destruct (validTimestamp w (NewValidator "secret") "999999997") eqn:E; [|reflexivity].
    apply (validTimestamp_window w (NewValidator "secret") AddrValidityWindow
             "999999997" 999999997 eq_refl eq_refl Hclock HW) in E.
    vm_compute in E. destruct E as [_ E]. discriminate.
Defined.

(** Claim C2 as stated fails for a window of one nanosecond: half of it is
    zero, so a timestamp equal to the clock has a difference of zero and is
    rejected. *)
Lemma validTimestamp_window_counterexample :
  let w := store 0 time.Nanosecond (initWorld (time.Unix 1000000000 0)) in
  let v := mkValidator "secret" (Some (AddrOf 0)) in
  window w v = Some 1
  /\ strconv.ParseInt "1000000000" = Ok 1000000000
  /\ unixNano (Now w) = 1000000000 * 1000000000
  /\ validTimestamp w v "1000000000" = false.
Proof. vm_compute. auto. Qed.

(** Claim C8.  [NewValidator] keeps the key and points [Period] at the
    package variable [ValidityWindow], which starts at five seconds; an
    assignment to the variable after the construction is the window the
    validator then works with, and changes its verdicts, while a validator
    with a pointer of its own is not touched. *)
Theorem NewValidator_window (key : string) :
  NewValidator key = mkValidator key (Some AddrValidityWindow)
  /\ (forall now, window (initWorld now) (NewValidator key) = Some (5 * 1000000000))
  /\ (forall w d, window (setValidityWindow d w) (NewValidator key) = Some d)
  /\ (let w := initWorld (time.Unix 1000000000 0) in
      validTimestamp w (NewValidator key) "999999998" = true
      /\ validTimestamp (setValidityWindow time.Second w) (NewValidator key) "999999998" = false)
  /\ (forall w d l ts,
        validTimestamp (setValidityWindow d w) (mkValidator key (Some (AddrOf l))) ts
        = validTimestamp w (mkValidator key (Some (AddrOf l))) ts).
Proof.
  repeat split.
Qed.

(** ** The request validator *)

Lemma Errorf_unknownHost (r : http.Request) :
  fmt.Errorf "Unknown host: %s" [fmt.Str (http.Host r)] = unknownHost r.
Proof.
  unfold fmt.Errorf, unknownHost, stringOf, bytesOf. cbn [fmt.Fprintf fmt.verbS].
  rewrite app_nil_r.
  change (string_of_list_byte
            (list_byte_of_string "Unknown host: " ++ list_byte_of_string (http.Host r))
          = String.append "Unknown host: " (http.Host r)).
  rewrite <- (string_of_list_byte_of_string (String.append "Unknown host: " (http.Host r))).
  reflexivity.
Qed.

(** The three ways out of [ValidRequest]. *)
Lemma ValidRequest_missing (w : World) (v : Validator) (r : http.Request) :
  timestampOf r = "" \/ signatureOf r = "" ->
  ValidRequest w v r = (Some (unknownHost r), r).
Proof.
  intros H. unfold ValidRequest. fold (timestampOf r) (signatureOf r).
  rewrite Errorf_unknownHost.
  destruct H as [-> | ->]; [reflexivity|]. rewrite orb_true_r. reflexivity.
Qed.

Lemma ValidRequest_present (w : World) (v : Validator) (r : http.Request) :
  timestampOf r <> "" -> signatureOf r <> "" ->
  ValidRequest w v r =
  if validTimestamp w v (timestampOf r)
     && validSignature v (timestampOf r) (url.RawQuery (http.URL r)) (unread r) (signatureOf r)
  then (None, http.mkRequest (http.Header_ r) (http.Host r) (http.URL r)
                (http.NewBuffer (unread r)))
  else (Some (unknownHost r),
        http.mkRequest (http.Header_ r) (http.Host r) (http.URL r)
          (snd (http.ReadAll (http.Body r)))).
Proof.
  intros Hts Hrs. unfold ValidRequest. fold (timestampOf r) (signatureOf r).
  apply String.eqb_neq in Hts, Hrs. rewrite Hts, Hrs. cbn [orb].
  unfold unread, http.ReadAll. cbn [fst snd http.URL http.Host http.Header_].
  rewrite Errorf_unknownHost.
  destruct (validTimestamp w v (timestampOf r)); cbn [Bool.eqb orb andb]; [|reflexivity].
  destruct (validSignature _ _ _ _ _); reflexivity.
Qed.

Lemma ReadAll_drained (b : http.Reader) : fst (http.ReadAll (snd (http.ReadAll b))) = [].
Proof. unfold http.ReadAll. cbn. apply skipn_all. Qed.


Lemma validTimestamp_malformed (w : World) (v : Validator) (ts : string) :
  isOk (stringToTime ts) = false -> validTimestamp w v ts = false.
Proof. unfold validTimestamp. destruct (stringToTime ts); [discriminate | reflexivity]. Qed.

Lemma validSignature_malformed (v : Validator) (ts rqp : string) (b : list byte) (rs : string) :
  isOk (base64.DecodeString rs) = false -> validSignature v ts rqp b rs = false.
Proof.
  unfold validSignature. intros H. destruct (url.Parse _); [|reflexivity].
  rewrite calculateSignature_eq. destruct (base64.DecodeString rs); [discriminate | reflexivity].
Qed.

Lemma ValidRequest_rejects (w : World) (v : Validator) (r : http.Request) (c : Cause) :
  suffers w v r c -> fst (ValidRequest w v r) = Some (unknownHost r).
Proof.
  intros Hc.
  destruct (String.eqb_spec (timestampOf r) "") as [Hts|Hts];
    [rewrite ValidRequest_missing by auto; reflexivity|].
  destruct (String.eqb_spec (signatureOf r) "") as [Hrs|Hrs];
    [rewrite ValidRequest_missing by auto; reflexivity|].
  rewrite ValidRequest_present by assumption.
  assert (Hno : validTimestamp w v (timestampOf r)
                && validSignature v (timestampOf r) (url.RawQuery (http.URL r)) (unread r)
                     (signatureOf r) = false).
  { destruct c; cbn [suffers] in Hc; try contradiction.
    - rewrite validTimestamp_malformed by assumption. reflexivity.
    - destruct Hc as [_ ->]. reflexivity.
    - rewrite validSignature_malformed by assumption. apply andb_false_r.
    - rewrite Hc. apply andb_false_r. }
  rewrite Hno. reflexivity.
Qed.

(** Claim C5.  Whatever the cause of the rejection (a missing timestamp or
    signature header, a timestamp that is not an integer or is outside the
    window, a signature that is not base64 or does not match), [ValidRequest]
    returns the one error that names the host of the request, and the handler
    made by [Validate] never runs the wrapped handler: it answers with
    [http.Error] of an empty message and status 401, which depends on neither
    the request nor the cause. *)
Theorem rejection_uniform (w : World) (v : Validator) (r : http.Request) (c : Cause) :
  suffers w v r c ->
  fst (ValidRequest w v r) = Some (unknownHost r)
  /\ (forall (h : http.Handler) (rw : http.ResponseWriter),
        Validate w v h rw r = http.Error rw "" http.StatusUnauthorized
        /\ (http.wStatus rw = None ->
            http.wStatus (Validate w v h rw r) = Some 401
            /\ http.wBody (Validate w v h rw r) = http.wBody rw ++ [x0a])).
Proof.
  intros Hc. pose proof (ValidRequest_rejects w v r c Hc) as Herr.
  split; [assumption|]. intros h rw.
  assert (HV : Validate w v h rw r = http.Error rw "" http.StatusUnauthorized).
  { unfold Validate. destruct (ValidRequest w v r) as [[err|] r']; [reflexivity|discriminate]. }
  split; [assumption|]. intros Hst. rewrite HV.
  unfold http.Error, http.Write_, http.WriteHeader. cbn. rewrite Hst. cbn. auto.
Qed.

Lemma rejection_uniform_witness :
  let w := initWorld (time.Unix 1000000000 0) in
  let v := NewValidator "secret" in
  let missing := inbound [(tsHeader, "1000000000")] "example.com" "" [] in
  let stale := inbound [(tsHeader, "1000000100"); (sHeader, fixtureSignature)] "example.com" "" [] in
  let h : http.Handler := fun rw r => http.Write_ rw (unread r) in
  let rw := http.mkResponse ∅ None [] in
  fst (ValidRequest w v missing) = fst (ValidRequest w v stale)
  /\ Validate w v h rw missing = Validate w v h rw stale
  /\ http.wStatus (Validate w v h rw stale) = Some 401.
Proof.
  intros w v missing stale h rw.
  assert (Hm : suffers w v missing MissingSignature) by (vm_compute; reflexivity).
  assert (Hs : suffers w v stale StaleOrFutureTimestamp) by (vm_compute; auto).
  destruct (rejection_uniform w v missing MissingSignature Hm) as [Em Vm].
  destruct (rejection_uniform w v stale StaleOrFutureTimestamp Hs) as [Es Vs].
  destruct (Vm h rw) as [Vm1 _]. destruct (Vs h rw) as [Vs1 Vs2].
  split; [rewrite Em, Es; reflexivity|].
  split; [rewrite Vm1, Vs1; reflexivity|].
  apply Vs2. reflexivity.
Defined.

(** Claim C6.  When [ValidRequest] returns nil, the body of the request is a
    fresh reader over the bytes that were read, positioned at their start:
    reading it gives exactly what reading the body before the call would
    have given, all of the body for a request whose body was unread.  The
    rest of the request is as it was. *)
Theorem ValidRequest_restores_body (w : World) (v : Validator) (r r' : http.Request) :
  ValidRequest w v r = (None, r') ->
  http.Body r' = http.NewBuffer (unread r)
  /\ unread r' = unread r
  /\ (http.off (http.Body r) = 0%nat -> unread r' = http.data (http.Body r))
  /\ http.Header_ r' = http.Header_ r
  /\ http.Host r' = http.Host r
  /\ http.URL r' = http.URL r.
Proof.
  intros H.
  destruct (String.eqb_spec (timestampOf r) "") as [Hts|Hts];
    [rewrite ValidRequest_missing in H by auto; discriminate|].
  destruct (String.eqb_spec (signatureOf r) "") as [Hrs|Hrs];
    [rewrite ValidRequest_missing in H by auto; discriminate|].
  rewrite ValidRequest_present in H by assumption.
  destruct (_ && _); [|discriminate]. injection H as <-.
  cbn [http.Body http.Header_ http.Host http.URL].
  split; [reflexivity|]. split; [reflexivity|]. split; [|repeat split].
  intros Hoff. unfold unread, http.ReadAll. cbn [fst http.NewBuffer http.data http.off skipn].
  rewrite Hoff. reflexivity.
Qed.

Lemma ValidRequest_restores_body_witness :
  let w := initWorld (time.Unix 1000000000 0) in
  let r := inbound [(tsHeader, "1000000000");
                    (sHeader, "J5Z/pMlZavFOumvMDh5JJKYYS7I6JXfTUfke+oxnaOM=")]
             "example.com" "b=2&a=1" (bytesOf "{}") in
  fst (ValidRequest w (NewValidator "secret") r) = None
  /\ unread (snd (ValidRequest w (NewValidator "secret") r)) = bytesOf "{}".
Proof.
  intros w r.
  assert (H : ValidRequest w (NewValidator "secret") r
              = (None, snd (ValidRequest w (NewValidator "secret") r)))
    by (vm_compute; reflexivity).
  split; [rewrite H; reflexivity|].
  destruct (ValidRequest_restores_body w (NewValidator "secret") r _ H) as (_ & _ & Hall & _).
  apply Hall. reflexivity.
Defined.

(** Claim C10.  When both headers are present and the timestamp or the
    signature check fails, [ValidRequest] returns its error with the body
    read to its end and not replaced, so nothing is left to read; when a
    header is missing it returns before reading, with the request as it
    was. *)
Theorem ValidRequest_failure_body (w : World) (v : Validator) (r : http.Request) :
  (timestampOf r <> "" -> signatureOf r <> "" ->
   validTimestamp w v (timestampOf r) = false
   \/ validSignature v (timestampOf r) (url.RawQuery (http.URL r)) (unread r) (signatureOf r)
      = false ->
   exists r',
     ValidRequest w v r = (Some (unknownHost r), r')
     /\ http.Body r' = snd (http.ReadAll (http.Body r))
     /\ http.off (http.Body r') = length (http.data (http.Body r))
     /\ unread r' = [])
  /\ (timestampOf r = "" \/ signatureOf r = "" ->
      ValidRequest w v r = (Some (unknownHost r), r)).
Proof.
  split.
  - intros Hts Hrs Hfail. rewrite ValidRequest_present by assumption.
    assert (Hno : validTimestamp w v (timestampOf r)
                  && validSignature v (timestampOf r) (url.RawQuery (http.URL r)) (unread r)
                       (signatureOf r) = false).
    { destruct Hfail as [-> | ->]; [reflexivity | apply andb_false_r]. }
    rewrite Hno. eexists. split; [reflexivity|]. cbn [http.Body].
    repeat split. apply ReadAll_drained.
  - apply ValidRequest_missing.
Qed.

Lemma ValidRequest_failure_body_witness :
  let w := initWorld (time.Unix 1000000000 0) in
  let v := NewValidator "secret" in
  let forged := inbound [(tsHeader, "1000000000"); (sHeader, "AAAA")]
                  "example.com" "" (bytesOf "{}") in
  let missing := inbound [(tsHeader, "1000000000")] "example.com" "" (bytesOf "{}") in
  unread forged = bytesOf "{}"
  /\ (exists r', ValidRequest w v forged = (Some (unknownHost forged), r') /\ unread r' = [])
  /\ ValidRequest w v missing = (Some (unknownHost missing), missing).
Proof.
  intros w v forged missing.
  split; [reflexivity|]. split.
  - destruct (ValidRequest_failure_body w v forged) as [Hfail _].
    destruct Hfail as (r' & Hr & _ & _ & Hu).
    + vm_compute. discriminate.
    + vm_compute. discriminate.
    + right. vm_compute. reflexivity.
    + exists r'. split; assumption.
  - destruct (ValidRequest_failure_body w v missing) as [_ Hmiss].
    apply Hmiss. right. vm_compute. reflexivity.
Defined.

(** ** Canonical query strings *)

Lemma parsePiece_entry (m : url.Values) (piece : string) :
  url.parsePiece m piece =
  match pieceEntry piece with
  | Some p => addEntry m p
  | None => m
  end.
Proof.
  unfold url.parsePiece, pieceEntry.
  destruct (strings.ContainsByte ";" piece); [reflexivity|].
  destruct (String.eqb piece ""); [reflexivity|].
  destruct (strings.Cut "=" piece) as [[key value] found].
  destruct (url.QueryUnescape key) as [k|]; [|reflexivity].
  destruct (url.QueryUnescape value) as [x|]; reflexivity.
Qed.

Lemma fold_parsePiece (pieces : list string) (m : url.Values) :
  fold_left url.parsePiece pieces m = fold_left addEntry (omap pieceEntry pieces) m.
Proof.
  revert m. induction pieces as [|piece pieces IH]; intros m; [reflexivity|].
  cbn [fold_left omap list_omap]. rewrite IH, parsePiece_entry.
  destruct (pieceEntry piece); reflexivity.
Qed.

Lemma ParseQuery_entries (query : string) :
  url.ParseQuery query = fold_left addEntry (queryEntries query) ∅.
Proof. apply fold_parsePiece. Qed.

(** What the map holds under a key once the pairs are added. *)
Lemma lookup_fold_addEntry (ps : list (string * string)) (m : url.Values) (k : string) :
  fold_left addEntry ps m !! k =
  match valuesOf k ps with
  | [] => m !! k
  | xs => Some (url.values m k ++ xs)
  end.
Proof.
  revert m. induction ps as [|[k' x] ps IH]; intros m; [reflexivity|].
  cbn [fold_left]. rewrite IH. unfold valuesOf, addEntry, url.values.
  cbn [List.filter fst snd]. destruct (String.eqb_spec k' k) as [->|Hne].
  - cbn [map]. rewrite lookup_insert_eq. cbn [default].
    destruct (map snd _) as [|y ys]; [reflexivity|].
    cbn [id snd]. rewrite <- app_assoc. reflexivity.
  - rewrite lookup_insert_ne by assumption. reflexivity.
Qed.








(** ** Decimal timestamps *)

Lemma charZ_digitChar (d : Z) : 0 <= d < 10 -> charZ (strconv.digitChar d) = 48 + d.
Proof.
  intros Hd. unfold charZ, strconv.digitChar.
  rewrite N_ascii_embedding by lia. lia.
Qed.

Lemma parseDigits_digit (d n : Z) (rest : string) :
  0 <= d < 10 -> 0 <= n -> n * 10 + d <= strconv.maxUint64 ->
  strconv.parseDigits (String (strconv.digitChar d) rest) n
  = strconv.parseDigits rest (n * 10 + d).
Proof.
  intros Hd Hn Hmax. cbn [strconv.parseDigits]. cbv zeta.
  rewrite charZ_digitChar by assumption. unfold strconv.maxUint64 in *.
  destruct (Z.leb_spec 48 (48 + d)); [|lia].
  destruct (Z.leb_spec (48 + d) 57); [|lia]. cbn [andb].
  destruct (Z.geb_spec n (18446744073709551615 / 10 + 1)); [zlia|].
  rewrite (Z.mod_small (n * 10)) by lia.
  replace (48 + d - 48) with d by lia.
  rewrite (Z.mod_small (n * 10 + d)) by lia.
  destruct (Z.ltb_spec (n * 10 + d) (n * 10)); [lia|].
  destruct (Z.gtb_spec (n * 10 + d) 18446744073709551615); [lia|].
  reflexivity.
Qed.

Lemma parseDigits_formatBits (fuel : nat) (u : Z) (acc : string) :
  0 <= u <= strconv.maxUint64 -> u < 10 ^ Z.of_nat fuel ->
  strconv.parseDigits (strconv.formatBits fuel u acc) 0 = strconv.parseDigits acc u.
Proof.
  revert u acc. induction fuel as [|fuel IH]; intros u acc Hu Hlt.
  - cbn in *. replace u with 0 by lia. reflexivity.
  - cbn [strconv.formatBits]. cbv zeta. unfold strconv.maxUint64 in *.
    destruct (Z.ltb_spec u 10) as [Hsmall|Hbig].
    + rewrite parseDigits_digit by (unfold strconv.maxUint64; zlia).
      f_equal. zlia.
    + rewrite IH.
      * rewrite parseDigits_digit by (unfold strconv.maxUint64; zlia). f_equal. zlia.
      * zlia.
      * rewrite Nat2Z.inj_succ, Z.pow_succ_r in Hlt by lia.
        apply Z.div_lt_upper_bound; lia.
Qed.

Lemma formatBits_head (fuel : nat) (u : Z) (acc : string) :
  (fuel <> O \/ startsWithDigit acc = true) ->
  startsWithDigit (strconv.formatBits fuel u acc) = true.
Proof.
  revert u acc. induction fuel as [|fuel IH]; intros u acc H.
  - destruct H as [H|H]; [contradiction | exact H].
  - cbn [strconv.formatBits]. cbv zeta.
    assert (Hd : startsWithDigit (String (strconv.digitChar (u mod 10)) acc) = true).
    { cbn [startsWithDigit]. rewrite charZ_digitChar by (apply Z.mod_pos_bound; lia).
      apply andb_true_intro. split; apply Z.leb_le; zlia. }
    destruct (u <? 10); [exact Hd|]. apply IH. right. exact Hd.
Qed.

(** Every 64-bit integer is read back from its decimal form. *)
Lemma ParseInt_FormatInt (z : Z) : int64 z -> strconv.ParseInt (strconv.FormatInt z) = Ok z.
Proof.
  unfold int64. intros Hz. unfold strconv.FormatInt.
  assert (Hpow : 2 ^ 64 < 10 ^ Z.of_nat 20) by (vm_compute; reflexivity).
  destruct (Z.ltb_spec z 0) as [Hneg|Hpos].
  - assert (Hp : strconv.parseDigits (strconv.formatBits 20 (- z) "") 0 = Ok (- z)).
    { rewrite parseDigits_formatBits by (unfold strconv.maxUint64; lia). reflexivity. }
    pose proof (formatBits_head 20 (- z) "" (or_introl (Nat.neq_succ_0 _))) as Hh.
    unfold strconv.ParseInt. cbn [Ascii.eqb Bool.eqb].
    unfold strconv.ParseUint.
    destruct (strconv.formatBits 20 (- z) "") as [|c rest]; [discriminate|].
    rewrite Hp. cbn [negb andb].
    destruct (Z.gtb_spec (- z) (2 ^ 63)); [lia|]. f_equal. lia.
  - assert (Hp : strconv.parseDigits (strconv.formatBits 20 z "") 0 = Ok z).
    { rewrite parseDigits_formatBits by (unfold strconv.maxUint64; lia). reflexivity. }
    pose proof (formatBits_head 20 z "" (or_introl (Nat.neq_succ_0 _))) as Hh.
    unfold strconv.ParseInt.
    destruct (strconv.formatBits 20 z "") as [|c rest]; [discriminate|].
    cbn [startsWithDigit] in Hh. apply andb_prop in Hh as [H1 H2].
    apply Z.leb_le in H1, H2.
    assert (Hplus : Ascii.eqb c "+" = false).
    { apply Ascii.eqb_neq. intros ->. vm_compute in H1. contradiction. }
    assert (Hminus : Ascii.eqb c "-" = false).
    { apply Ascii.eqb_neq. intros ->. vm_compute in H1. contradiction. }
    rewrite Hplus, Hminus. unfold strconv.ParseUint. rewrite Hp. cbn [negb andb].
    destruct (Z.geb_spec z (2 ^ 63)); [lia|]. reflexivity.
Qed.

(** Claim C7.  A validator whose [Period] is nil accepts a timestamp exactly
    when [strconv.ParseInt] reads it as a 64-bit integer, whatever the clock
    says: the decimal form of every 64-bit second count is accepted, however
    far in the past or in the future, and a string that is empty, is not a
    number, or is out of range is rejected. *)
Theorem validTimestamp_disabled (w : World) (key ts : string) :
  let v := mkValidator key None in
  validTimestamp w v ts = isOk (strconv.ParseInt ts)
  /\ (forall sec, int64 sec -> validTimestamp w v (strconv.FormatInt sec) = true)
  /\ validTimestamp w v "" = false
  /\ validTimestamp w v "12a" = false
  /\ validTimestamp w v "9223372036854775808" = false.
Proof.
  intros v.
  assert (H : forall s, validTimestamp w v s = isOk (strconv.ParseInt s)).
  { intros s. unfold validTimestamp, stringToTime. destruct (strconv.ParseInt s); reflexivity. }
  split; [apply H|]. split; [|repeat split].
  intros sec Hsec. rewrite H, ParseInt_FormatInt by assumption. reflexivity.
Qed.

Lemma validTimestamp_disabled_witness :
  let w := initWorld (time.Unix 1000000000 0) in
  let v := mkValidator "secret" None in
  strconv.FormatInt (- 2 ^ 63) = "-9223372036854775808"
  /\ validTimestamp w v "-9223372036854775808" = true
  /\ strconv.FormatInt (2 ^ 63 - 1) = "9223372036854775807"
  /\ validTimestamp w v "9223372036854775807" = true.
Proof.
  intros w v.
  destruct (validTimestamp_disabled w "secret" "") as (_ & Hall & _).
  split; [vm_compute; reflexivity|]. split.
  - apply (Hall (- 2 ^ 63)). unfold int64. lia.
  - split; [vm_compute; reflexivity|]. apply (Hall (2 ^ 63 - 1)). unfold int64. lia.
Defined.

(** * Further properties of the code *)

(** ** More on the request validator *)

Lemma ValidRequest_accepts (w : World) (v : Validator) (r : http.Request) :
  fst (ValidRequest w v r) = None <->
  timestampOf r <> "" /\ signatureOf r <> ""
  /\ validTimestamp w v (timestampOf r) = true
  /\ validSignature v (timestampOf r) (url.RawQuery (http.URL r)) (unread r) (signatureOf r)
     = true.
Proof.
  destruct (String.eqb_spec (timestampOf r) "") as [Hts|Hts].
  { rewrite ValidRequest_missing by auto. cbn. split; [discriminate | tauto]. }
  destruct (String.eqb_spec (signatureOf r) "") as [Hrs|Hrs].
  { rewrite ValidRequest_missing by auto. cbn. split; [discriminate | tauto]. }
  rewrite ValidRequest_present by assumption.
  destruct (validTimestamp w v (timestampOf r)); cbn [andb].
  - destruct (validSignature _ _ _ _ _); cbn [fst]; split; try tauto; try discriminate.
    intros (_ & _ & _ & H). discriminate.
  - cbn [fst]. split; [discriminate|]. intros (_ & _ & H & _). discriminate.
Qed.




Lemma ValidRequest_unread_request (w : World) (v : Validator) (r r' : http.Request) :
  http.off (http.Body r) = 0%nat -> ValidRequest w v r = (None, r') -> r' = r.
Proof.
  intros Hoff H.
  assert (Hacc : fst (ValidRequest w v r) = None) by (rewrite H; reflexivity).
  apply ValidRequest_accepts in Hacc as (Hts & Hrs & Ht & Hs).
  rewrite ValidRequest_present in H by assumption.
  rewrite Ht, Hs in H. cbn [andb] in H. injection H as <-.
  destruct r as [hdr host u [data off]]. cbn in Hoff. subst off. reflexivity.
Qed.

(** Extra X3.  On a request that passes the validation and whose body has not
    been read, the handler made by [Validate] is the wrapped handler itself:
    it is given the same request, body included, and its response is the
    response. *)
Theorem Validate_transparent (w : World) (v : Validator) (h : http.Handler)
    (rw : http.ResponseWriter) (r : http.Request) :
  http.off (http.Body r) = 0%nat ->
  fst (ValidRequest w v r) = None ->
  Validate w v h rw r = h rw r.
Proof.
  intros Hoff Hacc. unfold Validate.
  destruct (ValidRequest w v r) as [[err|] r'] eqn:E; [discriminate|].
  rewrite (ValidRequest_unread_request w v r r' Hoff E). reflexivity.
Qed.


(** Extra X5.  The bytes of the body that were read before the call are outside
    the check: a body of which a prefix was consumed gets the verdict of the
    body made of the rest alone, and on acceptance the restored body is that
    rest, without the prefix. *)
Theorem ValidRequest_consumed_prefix (w : World) (v : Validator) (hdr : http.Header)
    (host : string) (u : url.URL) (pre b : list byte) :
  let partly := http.mkRequest hdr host u (http.mkReader (pre ++ b) (length pre)) in
  let whole := http.mkRequest hdr host u (http.NewBuffer b) in
  fst (ValidRequest w v partly) = fst (ValidRequest w v whole)
  /\ (fst (ValidRequest w v partly) = None ->
      snd (ValidRequest w v partly) = whole).
Proof.
  intros partly whole.
  assert (Hu : unread partly = b).
  { unfold unread, partly, http.ReadAll. cbn [http.Body http.off http.data fst].
    rewrite skipn_app, skipn_all, Nat.sub_diag. reflexivity. }
  assert (Hw : unread whole = b) by reflexivity.
  destruct (String.eqb_spec (timestampOf whole) "") as [Hts|Hts].
  { rewrite !ValidRequest_missing by (left; exact Hts). split; [reflexivity|discriminate]. }
  destruct (String.eqb_spec (signatureOf whole) "") as [Hrs|Hrs].
  { rewrite !ValidRequest_missing by (right; exact Hrs). split; [reflexivity|discriminate]. }
  rewrite (ValidRequest_present w v partly), (ValidRequest_present w v whole) by assumption.
  rewrite Hu, Hw.
  change (timestampOf partly) with (timestampOf whole).
  change (signatureOf partly) with (signatureOf whole).
  change (http.URL partly) with (http.URL whole).
  destruct (_ && _); cbn [fst snd]; split; try reflexivity; discriminate.
Qed.

(** Extra X6.  The headers are looked up under their canonical keys,
    [Messagebird-Request-Timestamp] and [Messagebird-Signature]: a request
    whose header map has no entry under one of these two keys is rejected as
    it is, before its body is read, whatever the map holds under other
    spellings. *)
Theorem ValidRequest_canonical_keys (w : World) (v : Validator) (r : http.Request) :
  http.Header_ r !! "Messagebird-Request-Timestamp" = None
  \/ http.Header_ r !! "Messagebird-Signature" = None ->
  ValidRequest w v r = (Some (unknownHost r), r).
Proof.
  intros H. apply ValidRequest_missing. unfold timestampOf, signatureOf, http.Get.
  change (http.CanonicalMIMEHeaderKey tsHeader) with "Messagebird-Request-Timestamp".
  change (http.CanonicalMIMEHeaderKey sHeader) with "Messagebird-Signature".
  destruct H as [-> | ->]; auto.
Qed.

(** ** Timestamps as decimal numerals *)

Lemma digitsValue_ge (s : string) (acc : Z) :
  0 <= acc -> allDigits s = true -> acc <= digitsValue s acc.
Proof.
  revert acc. induction s as [|c s IH]; intros acc Hacc Hd; cbn [digitsValue]; [lia|].
  cbn [allDigits] in Hd. apply andb_prop in Hd as [Hc Hs].
  unfold isDigit in Hc. apply andb_prop in Hc as [H1 H2]. apply Z.leb_le in H1, H2.
  specialize (IH (acc * 10 + (charZ c - 48)) ltac:(lia) Hs). lia.
Qed.

Lemma parseDigits_allDigits (s : string) (n : Z) :
  0 <= n <= strconv.maxUint64 -> allDigits s = true ->
  strconv.parseDigits s n =
  if digitsValue s n <=? strconv.maxUint64 then Ok (digitsValue s n) else Err strconv.ErrRange.
Proof.
  unfold strconv.maxUint64.
  revert n. induction s as [|c s IH]; intros n Hn Hd.
  - cbn. destruct (Z.leb_spec n 18446744073709551615); [reflexivity|lia].
  - cbn [allDigits] in Hd. apply andb_prop in Hd as [Hc Hs].
    pose proof Hc as Hc'. unfold isDigit in Hc'. apply andb_prop in Hc' as [H1 H2].
    apply Z.leb_le in H1, H2.
    cbn [strconv.parseDigits digitsValue]. cbv zeta. unfold strconv.maxUint64.
    unfold isDigit in Hc. rewrite Hc.
    pose proof (digitsValue_ge s (n * 10 + (charZ c - 48)) ltac:(lia) Hs) as Hge.
    destruct (Z.geb_spec n (18446744073709551615 / 10 + 1)) as [Hcut|Hcut].
    { destruct (Z.leb_spec (digitsValue s (n * 10 + (charZ c - 48))) 18446744073709551615);
        [exfalso; zlia | reflexivity]. }
    assert (Hn10 : 0 <= n * 10 < 2 ^ 64) by zlia.
    rewrite (Z.mod_small (n * 10)) by lia.
    destruct (Z.leb_spec (n * 10 + (charZ c - 48)) 18446744073709551615) as [Hfit|Hover].
    + rewrite (Z.mod_small (n * 10 + (charZ c - 48))) by lia.
      destruct (Z.ltb_spec (n * 10 + (charZ c - 48)) (n * 10)); [lia|].
      destruct (Z.gtb_spec (n * 10 + (charZ c - 48)) 18446744073709551615); [lia|].
      cbn [orb]. apply IH; [lia | assumption].
    + assert (Hwrap : (n * 10 + (charZ c - 48)) mod 2 ^ 64 = n * 10 + (charZ c - 48) - 2 ^ 64)
        by zlia.
      rewrite Hwrap.
      destruct (Z.ltb_spec (n * 10 + (charZ c - 48) - 2 ^ 64) (n * 10)); [|lia].
      cbn [orb].
      destruct (Z.leb_spec (digitsValue s (n * 10 + (charZ c - 48))) 18446744073709551615);
        [lia | reflexivity].
Qed.

Lemma parseDigits_not_allDigits (s : string) (n : Z) :
  allDigits s = false -> isOk (strconv.parseDigits s n) = false.
Proof.
  revert n. induction s as [|c s IH]; intros n Hd; [discriminate|].
  cbn [allDigits] in Hd. cbn [strconv.parseDigits]. cbv zeta.
  unfold isDigit in Hd.
  destruct ((48 <=? charZ c) && (charZ c <=? 57)).
  - cbn [andb] in Hd. destruct (_ >=? _); [reflexivity|].
    destruct (_ || _); [reflexivity|]. apply IH. exact Hd.
  - clear Hd. destruct ((97 <=? strconv.lower (charZ c)) && (strconv.lower (charZ c) <=? 122));
      reflexivity.
Qed.

(** [ParseInt] reads exactly the decimal numerals. *)
Lemma ParseInt_decimal_cases (s : string) :
  strconv.ParseInt s =
  match decimal s with
  | Some z => Ok z
  | None => strconv.ParseInt s
  end
  /\ (decimal s = None -> isOk (strconv.ParseInt s) = false).
Proof.
  unfold strconv.ParseInt, decimal. destruct s as [|c r]; [split; reflexivity|].
  set (p := if Ascii.eqb c "+" then _ else _). destruct p as [neg ds].
  unfold strconv.ParseUint.
  destruct ds as [|d ds].
  { cbn. split; reflexivity. }
  change (String.eqb (String d ds) "") with false. cbn [negb andb].
  destruct (allDigits (String d ds)) eqn:Hd.
  - rewrite parseDigits_allDigits by (unfold strconv.maxUint64; auto; lia).
    pose proof (digitsValue_ge (String d ds) 0 ltac:(lia) Hd) as Hge.
    set (n := digitsValue (String d ds) 0) in *. clearbody n.
    unfold strconv.maxUint64.
    destruct (Z.leb_spec n 18446744073709551615) as [Hfit|Hover].
    + destruct neg; cbn [negb andb].
      * destruct (Z.gtb_spec n (2 ^ 63)).
        -- destruct (Z.leb_spec (- 2 ^ 63) (- n)); [lia|]. cbn [andb]. split; [reflexivity|auto].
        -- destruct (Z.leb_spec (- 2 ^ 63) (- n)); [|lia].
           destruct (Z.ltb_spec (- n) (2 ^ 63)); [|lia]. cbn [andb]. split; [reflexivity|discriminate].
      * destruct (Z.geb_spec n (2 ^ 63)).
        -- destruct (Z.ltb_spec n (2 ^ 63)); [lia|]. rewrite andb_false_r. split; [reflexivity|auto].
        -- destruct (Z.leb_spec (- 2 ^ 63) n); [|lia].
           destruct (Z.ltb_spec n (2 ^ 63)); [|lia]. cbn [andb]. split; [reflexivity|discriminate].
    + destruct neg; cbn [negb andb].
      * destruct (Z.leb_spec (- 2 ^ 63) (- n)); [lia|]. cbn [andb]. split; [reflexivity|auto].
      * destruct (Z.ltb_spec n (2 ^ 63)); [lia|]. rewrite andb_false_r. split; [reflexivity|auto].
  - pose proof (parseDigits_not_allDigits (String d ds) 0 Hd) as Herr.
    split; [reflexivity|]. intros _.
    destruct (strconv.parseDigits (String d ds) 0) as [un|[|]]; [discriminate|reflexivity|].
    unfold strconv.maxUint64. destruct neg; reflexivity.
Qed.

Lemma ParseInt_decimal (s : string) :
  match decimal s with
  | Some z => strconv.ParseInt s = Ok z
  | None => isOk (strconv.ParseInt s) = false
  end.
Proof.
  destruct (ParseInt_decimal_cases s) as [H1 H2].
  destruct (decimal s); [exact H1 | apply H2; reflexivity].
Qed.

(** Extra X7.  [stringToTime] accepts exactly the decimal numerals of the 64-bit
    integers (an optional sign, then one digit or more, nothing else) and
    returns the time [time.Unix] makes of that many whole seconds; on any
    other string, an empty one, one with a space, a fraction or a value out
    of range, it returns an error. *)
Theorem stringToTime_decimal (s : string) :
  match decimal s with
  | Some z => stringToTime s = Ok (time.Unix z 0)
  | None => isOk (stringToTime s) = false
  end.
Proof.
  pose proof (ParseInt_decimal s) as H. unfold stringToTime.
  destruct (decimal s) as [z|].
  - rewrite H. reflexivity.
  - destruct (strconv.ParseInt s); [discriminate | reflexivity].
Qed.

(** ** More on freshness *)

(** Extra X8.  A window of one nanosecond or less, zero and negative windows
    included, rejects every timestamp, whatever the clock says. *)
Theorem validTimestamp_degenerate_window (w : World) (v : Validator) (p : DurationPtr) (ts : string) :
  Period v = Some p -> load w p <= 1 -> validTimestamp w v ts = false.
Proof.
  intros Hp HW. unfold validTimestamp. rewrite Hp.
  destruct (stringToTime ts) as [t|]; [|reflexivity].
  cbv zeta. set (diff := time.Sub _ _). clearbody diff.
  destruct (Z.ltb_spec diff (load w p)); [|reflexivity].
  destruct (Z.gtb_spec diff 0); [lia|reflexivity].
Qed.

(** Extra X9.  A timestamp accepted at one moment is rejected at every moment a
    full window or more away from it, later or earlier, as long as the
    window is not changed: no timestamp stays acceptable for as long as the
    window. *)
Theorem validTimestamp_expires (w w' : World) (v : Validator) (p : DurationPtr) (ts : string) :
  Period v = Some p ->
  realClock (Now w) -> realClock (Now w') ->
  int64 (load w p) -> load w' p = load w p ->
  load w p <= Z.abs (unixNano (Now w') - unixNano (Now w)) ->
  validTimestamp w v ts = true ->
  validTimestamp w' v ts = false.
Proof.
  intros Hp Hc Hc' HW Heq Hfar Hacc.
  destruct (strconv.ParseInt ts) as [t|e] eqn:Hts.
  - apply (validTimestamp_spec w v p ts t Hp Hts Hc HW) in Hacc.
    destruct (validTimestamp w' v ts) eqn:Hacc'; [|reflexivity].
    assert (HW' : int64 (load w' p)) by (rewrite Heq; exact HW).
    apply (validTimestamp_spec w' v p ts t Hp Hts Hc' HW') in Hacc'.
    rewrite Heq in Hacc'. lia.
  - unfold validTimestamp, stringToTime. rewrite Hts. reflexivity.
Qed.

(** ** The size of a signature *)

Lemma blocks_length (n : nat) (h : list Z) (bs : list byte) :
  length h = 8%nat -> length (sha256.blocks n h bs) = 8%nat.
Proof.
  revert h bs. induction n as [|n IH]; intros h bs Hh; [exact Hh|].
  cbn [sha256.blocks]. apply IH. reflexivity.
Qed.

Lemma bigEndian_length (n : nat) (z : Z) : length (sha256.bigEndian n z) = n.
Proof. induction n as [|n IH]; cbn [sha256.bigEndian length]; congruence. Qed.

Lemma flat_map_bigEndian_length (l : list Z) :
  length (flat_map (sha256.bigEndian 4) l) = (4 * length l)%nat.
Proof.
  induction l as [|x l IH]; [reflexivity|].
  cbn [flat_map]. rewrite length_app, bigEndian_length, IH. cbn [length]. lia.
Qed.

Lemma Sum256_length (data : list byte) : length (sha256.Sum256 data) = 32%nat.
Proof.
  unfold sha256.Sum256. cbv zeta.
  rewrite flat_map_bigEndian_length, blocks_length; reflexivity.
Qed.

Lemma hmac_Sum_length (key message : list byte) : length (hmac.Sum key message) = 32%nat.
Proof. apply Sum256_length. Qed.

Lemma EncodeToString_length (src : list byte) :
  Z.of_nat (String.length (base64.EncodeToString src)) = 4 * ((Z.of_nat (length src) + 2) / 3).
Proof.
  induction src as [|a|a b|a b c src IH] using list_ind3; try reflexivity.
  cbn [base64.EncodeToString String.length length]. cbv zeta. cbn [String.length].
  rewrite !Nat2Z.inj_succ, IH. zlia.
Qed.

(** Extra X10.  Whatever the key, timestamp, query and body, [calculateSignature]
    returns a signature of 32 bytes, and its base64 form has 44
    characters. *)
Theorem calculateSignature_size (v : Validator) (ts qp : string) (b : list byte) :
  exists es,
    calculateSignature v ts qp b = Ok es
    /\ length es = 32%nat
    /\ String.length (base64.EncodeToString es) = 44%nat.
Proof.
  eexists. split; [apply calculateSignature_eq|].
  split; [apply hmac_Sum_length|].
  apply Nat2Z.inj. rewrite EncodeToString_length, hmac_Sum_length. reflexivity.
Qed.

(** Extra X11.  [validSignature] accepts exactly when the raw query parses and the
    supplied signature decodes from base64 to the very bytes
    [calculateSignature] computes over the canonical query; in particular
    what it accepts decodes to 32 bytes, so an empty signature is never
    accepted. *)
Theorem validSignature_exact (v : Validator) (ts rqp : string) (b : list byte) (rs : string) :
  (validSignature v ts rqp b rs = true <->
   exists qp es,
     canonicalQuery rqp = Some qp
     /\ calculateSignature v ts qp b = Ok es
     /\ base64.DecodeString rs = Ok es)
  /\ (validSignature v ts rqp b rs = true ->
      exists drs, base64.DecodeString rs = Ok drs /\ length drs = 32%nat)
  /\ validSignature v ts rqp b "" = false.
Proof.
  assert (Hiff : validSignature v ts rqp b rs = true <->
                 exists qp es, canonicalQuery rqp = Some qp
                   /\ calculateSignature v ts qp b = Ok es
                   /\ base64.DecodeString rs = Ok es).
  { destruct (canonicalQuery rqp) as [qp|] eqn:Hq.
    - rewrite (validSignature_canonical v ts rqp b rs qp Hq).
      split.
      + intros H. exists qp. eexists. split; [reflexivity|].
        split; [apply calculateSignature_eq|].
        destruct (base64.DecodeString rs) as [drs|]; [|discriminate].
        apply Equal_iff in H. rewrite H. reflexivity.
      + intros (qp' & es & [= <-] & Hes & Hrs).
        rewrite calculateSignature_eq in Hes. injection Hes as <-.
        rewrite Hrs. apply Equal_refl.
    - rewrite validSignature_unparsable by assumption.
      split; [discriminate|]. intros (qp & es & Hq' & _). discriminate. }
  split; [exact Hiff|]. split.
  - intros H. apply Hiff in H as (qp & es & _ & Hes & Hrs).
    exists es. split; [exact Hrs|].
    rewrite calculateSignature_eq in Hes. injection Hes as <-. apply hmac_Sum_length.
  - destruct (canonicalQuery rqp) as [qp|] eqn:Hq.
    + rewrite (validSignature_canonical v ts rqp b "" qp Hq).
      change (base64.DecodeString "") with (@Ok (list byte) base64.CorruptInputError []).
      cbv iota beta. unfold hmac.Equal, hmac.ConstantTimeCompare.
      rewrite hmac_Sum_length. reflexivity.
    + apply validSignature_unparsable. assumption.
Qed.

(** ** The layout of the signed message *)

Lemma bytesOf_append (s1 s2 : string) :
  bytesOf (String.append s1 s2) = bytesOf s1 ++ bytesOf s2.
Proof.
  unfold bytesOf, list_byte_of_string.
  induction s1 as [|c s1 IH]; [reflexivity|].
  change (String.append (String c s1) s2) with (String c (String.append s1 s2)).
  cbn [list_ascii_of_string map app]. f_equal. exact IH.
Qed.

Lemma bytesOf_inj (s1 s2 : string) : bytesOf s1 = bytesOf s2 -> s1 = s2.
Proof.
  intros H. rewrite <- (string_of_list_byte_of_string s1), <- (string_of_list_byte_of_string s2).
  unfold bytesOf in H. rewrite H. reflexivity.
Qed.

Lemma bytesOf_newline_free (s : string) :
  strings.ContainsByte "010" s = false -> ~ In x0a (bytesOf s).
Proof.
  unfold bytesOf, list_byte_of_string.
  induction s as [|c s IH]; cbn [strings.ContainsByte list_ascii_of_string map]; [auto|].
  intros H. apply orb_false_elim in H as [Hc Hs]. intros [Heq|Hin]; [|exact (IH Hs Hin)].
  apply Ascii.eqb_neq in Hc. apply Hc.
  rewrite <- (ascii_of_byte_of_ascii c), Heq. reflexivity.
Qed.

Lemma split_at_first {A} (x : A) (l1 l2 r1 r2 : list A) :
  ~ In x l1 -> ~ In x l2 -> l1 ++ x :: r1 = l2 ++ x :: r2 -> l1 = l2 /\ r1 = r2.
Proof.
  revert l2. induction l1 as [|a l1 IH]; intros [|b l2] H1 H2 H; cbn in *.
  - injection H as <-. auto.
  - injection H as <- _. exfalso. apply H2. auto.
  - injection H as -> _. exfalso. apply H1. auto.
  - injection H as <- H. destruct (IH l2) as [-> ->]; auto.
Qed.

(** Extra X12.  For timestamps without a line feed the signed message tells its
    three parts apart: two messages are equal only if the timestamps are
    equal, the canonical queries are equal and the bodies have the same
    SHA-256 digest. *)
Theorem signedMessage_unambiguous (ts1 ts2 qp1 qp2 : string) (b1 b2 : list byte) :
  strings.ContainsByte "010" ts1 = false ->
  strings.ContainsByte "010" ts2 = false ->
  signedMessage ts1 qp1 b1 = signedMessage ts2 qp2 b2 ->
  ts1 = ts2 /\ qp1 = qp2 /\ sha256.Sum256 b1 = sha256.Sum256 b2.
Proof.
  intros H1 H2 H. unfold signedMessage in H. rewrite !Fprintf_signedFormat in H.
  apply split_at_first in H as [Hts Hrest]; try (apply bytesOf_newline_free; assumption).
  apply app_inj_2 in Hrest as [Hqp Hh]; [|cbn [length]; rewrite !Sum256_length; reflexivity].
  injection Hh as Hh. auto using bytesOf_inj.
Qed.

(** Extra X13.  A line feed in the timestamp makes the layout ambiguous: moving
    what follows it from the end of the timestamp to the front of the query
    leaves the signature unchanged, for every key and every body. *)
Theorem calculateSignature_newline_shift (v : Validator) (ts x qp : string) (b : list byte) :
  calculateSignature v (String.append ts (String.append newline x)) qp b
  = calculateSignature v ts (String.append x (String.append newline qp)) b.
Proof.
  rewrite !calculateSignature_eq, !bytesOf_append.
  change (bytesOf newline) with [x0a].
  rewrite <- !app_assoc. reflexivity.
Qed.

(** ** Line breaks in the supplied signature *)

Lemma decodeMap_newline (c : ascii) : base64.isNewline c = true -> base64.decodeMap c = 255.
Proof.
  unfold base64.isNewline. intros H. apply orb_prop in H as [H|H];
    apply Ascii.eqb_eq in H; subst c; reflexivity.
Qed.

Lemma skipNewlines_strip (s : string) :
  base64.skipNewlines (stripNewlines s) = stripNewlines (base64.skipNewlines s).
Proof.
  induction s as [|c s IH]; [reflexivity|].
  cbn [stripNewlines base64.skipNewlines].
  destruct (base64.isNewline c) eqn:Hc; [exact IH|].
  cbn [base64.skipNewlines stripNewlines]. rewrite Hc. reflexivity.
Qed.

Lemma skipNewlines_head (s : string) :
  match base64.skipNewlines s with
  | "" => True
  | String c _ => base64.isNewline c = false
  end.
Proof.
  induction s as [|c s IH]; [exact I|].
  cbn [base64.skipNewlines]. destruct (base64.isNewline c) eqn:Hc; [exact IH | exact Hc].
Qed.

Lemma decode_strip (s : string) (dbuf : list Z) :
  base64.decode (stripNewlines s) dbuf = base64.decode s dbuf.
Proof.
  revert dbuf. induction s as [|c s IH]; intros dbuf; [reflexivity|].
  cbn [stripNewlines]. destruct (base64.isNewline c) eqn:Hc.
  - rewrite IH. cbn [base64.decode]. cbv zeta.
    rewrite (decodeMap_newline c Hc), Hc. reflexivity.
  - cbn [base64.decode]. cbv zeta. rewrite Hc, !IH.
    destruct (negb (base64.decodeMap c =? 255)); [reflexivity|].
    destruct (negb (Ascii.eqb c base64.padChar)); [reflexivity|].
    rewrite !skipNewlines_strip.
    destruct dbuf as [|s0 [|s1 [|s2 dbuf]]]; cbn [length]; try reflexivity.
    + pose proof (skipNewlines_head s) as Hh.
      destruct (base64.skipNewlines s) as [|c2 rest2]; [reflexivity|].
      cbn [stripNewlines]. rewrite Hh.
      destruct (negb (Ascii.eqb c2 base64.padChar)); [reflexivity|].
      rewrite skipNewlines_strip.
      pose proof (skipNewlines_head rest2) as Hh2.
      destruct (base64.skipNewlines rest2) as [|c3 rest3]; [reflexivity|].
      cbn [stripNewlines]. rewrite Hh2. reflexivity.
    + pose proof (skipNewlines_head s) as Hh.
      destruct (base64.skipNewlines s) as [|c2 rest2]; [reflexivity|].
      cbn [stripNewlines]. rewrite Hh. reflexivity.
Qed.

(** Extra X14.  Line feeds and carriage returns in the supplied signature do not
    count: a signature gets the verdict of the same text without them,
    wherever they stand. *)
Theorem validSignature_ignores_newlines (v : Validator) (ts rqp : string) (b : list byte)
    (rs : string) :
  validSignature v ts rqp b rs = validSignature v ts rqp b (stripNewlines rs).
Proof.
  unfold validSignature, base64.DecodeString. rewrite decode_strip. reflexivity.
Qed.

(** ** What of the raw query is signed *)

Lemma validSignature_by_canonical (v : Validator) (ts rqp : string) (b : list byte) (rs : string) :
  validSignature v ts rqp b rs =
  match canonicalQuery rqp with
  | Some qp =>
      match base64.DecodeString rs with
      | Ok drs => hmac.Equal drs (hmac.Sum (bytesOf (SigningKey v))
                    (bytesOf ts ++ x0a :: bytesOf qp ++ x0a :: sha256.Sum256 b))
      | Err _ => false
      end
  | None => false
  end.
Proof.
  destruct (canonicalQuery rqp) as [qp|] eqn:Hq.
  - apply validSignature_canonical. exact Hq.
  - apply validSignature_unparsable. exact Hq.
Qed.

Lemma append_empty_r (s : string) : String.append s "" = s.
Proof.
  induction s as [|c s IH]; [reflexivity|].
  change (String.append (String c s) "") with (String c (String.append s "")).
  f_equal. exact IH.
Qed.

Lemma Cut_none (sep : ascii) (s : string) :
  strings.ContainsByte sep s = false -> strings.Cut sep s = (s, "", false).
Proof.
  induction s as [|c s IH]; intros Hs; [reflexivity|].
  cbn [strings.ContainsByte] in Hs. apply orb_false_elim in Hs as [Hc Hs].
  cbn [strings.Cut]. rewrite Hc, (IH Hs). reflexivity.
Qed.

Lemma Cut_app (sep : ascii) (a s : string) :
  strings.ContainsByte sep a = false ->
  strings.Cut sep (String.append a s) =
  let '(x, y, f) := strings.Cut sep s in (String.append a x, y, f).
Proof.
  induction a as [|c a IH]; intros Ha.
  - change (String.append "" s) with s. destruct (strings.Cut sep s) as [[x y] f]. reflexivity.
  - cbn [strings.ContainsByte] in Ha. apply orb_false_elim in Ha as [Hc Ha].
    change (String.append (String c a) s) with (String c (String.append a s)).
    cbn [strings.Cut]. rewrite Hc, (IH Ha).
    destruct (strings.Cut sep s) as [[x y] f]. reflexivity.
Qed.

Lemma ContainsByte_app (sep : ascii) (a s : string) :
  strings.ContainsByte sep (String.append a s)
  = strings.ContainsByte sep a || strings.ContainsByte sep s.
Proof.
  induction a as [|c a IH]; [reflexivity|].
  change (String.append (String c a) s) with (String c (String.append a s)).
  cbn [strings.ContainsByte]. rewrite IH, orb_assoc. reflexivity.
Qed.


Lemma canonicalQuery_eq (rqp : string) :
  canonicalQuery rqp =
  let '(q, frag, _) := strings.Cut "#" rqp in
  if url.stringContainsCTLByte q then None
  else if String.eqb frag "" || isOk (url.unescape frag url.encodeFragment)
       then Some (url.Encode (url.ParseQuery q))
       else None.
Proof.
  unfold canonicalQuery. rewrite Parse_question.
  destruct (strings.Cut "#" rqp) as [[q frag] found].
  destruct (url.stringContainsCTLByte q); [reflexivity|].
  destruct (String.eqb frag ""); [reflexivity|]. cbn [orb].
  destruct (url.unescape frag url.encodeFragment); reflexivity.
Qed.

(** Extra X15.  What follows a number sign in the raw query is not signed: with
    well-formed percent escapes after the sign, the query gets the verdict of
    the part before the sign alone. *)
Theorem validSignature_ignores_fragment (v : Validator) (ts q frag : string) (b : list byte)
    (rs : string) :
  strings.ContainsByte "#" q = false ->
  isOk (url.unescape frag url.encodeFragment) = true ->
  validSignature v ts (String.append q (String "#" frag)) b rs = validSignature v ts q b rs.
Proof.
  intros Hq Hfrag. rewrite !validSignature_by_canonical, !canonicalQuery_eq.
  rewrite (Cut_app "#" q (String "#" frag) Hq), (Cut_none "#" q Hq).
  cbn [strings.Cut Ascii.eqb Bool.eqb]. cbv iota beta.
  rewrite append_empty_r, Hfrag, orb_true_r. reflexivity.
Qed.

Lemma SplitByte_nonempty (sep : ascii) (s : string) : strings.SplitByte sep s <> [].
Proof.
  destruct s as [|c s]; [discriminate|]. cbn [strings.SplitByte].
  destruct (strings.SplitByte sep s); [discriminate|]. destruct (Ascii.eqb c sep); discriminate.
Qed.

Lemma SplitByte_app (sep : ascii) (a rest : string) :
  strings.SplitByte sep (String.append a (String sep rest))
  = strings.SplitByte sep a ++ strings.SplitByte sep rest.
Proof.
  induction a as [|c a IH].
  - change (String.append "" (String sep rest)) with (String sep rest).
    cbn [strings.SplitByte]. pose proof (SplitByte_nonempty sep rest) as Hne.
    destruct (strings.SplitByte sep rest); [contradiction|].
    rewrite Ascii.eqb_refl. reflexivity.
  - change (String.append (String c a) (String sep rest))
      with (String c (String.append a (String sep rest))).
    cbn [strings.SplitByte]. rewrite IH.
    pose proof (SplitByte_nonempty sep a) as Hne.
    destruct (strings.SplitByte sep a) as [|x l]; [contradiction|].
    cbn [app]. destruct (Ascii.eqb c sep); reflexivity.
Qed.

Lemma SplitByte_none (sep : ascii) (s : string) :
  strings.ContainsByte sep s = false -> strings.SplitByte sep s = [s].
Proof.
  induction s as [|c s IH]; intros Hs; [reflexivity|].
  cbn [strings.ContainsByte] in Hs. apply orb_false_elim in Hs as [Hc Hs].
  cbn [strings.SplitByte]. rewrite (IH Hs), Hc. reflexivity.
Qed.



(** ** Keys that sign alike *)

(** Extra X17.  A key longer than the 64-byte block of SHA-256 signs as its own
    SHA-256 digest does: [hMACSHA256] returns the same bytes for the long
    key and for the 32 bytes of its digest used as the key. *)
Theorem hMACSHA256_long_key (message key : list byte) :
  (64 < length key)%nat ->
  hMACSHA256 message key = hMACSHA256 message (sha256.Sum256 key).
Proof.
  intros Hlen. unfold hMACSHA256, hmac.Sum. f_equal.
  assert (Hk : hmac.blockKey key = hmac.blockKey (sha256.Sum256 key)).
  { unfold hmac.blockKey, sha256.BlockSize. rewrite Sum256_length.
    apply Nat.ltb_lt in Hlen. rewrite Hlen. cbn [Nat.ltb Nat.leb].
    rewrite Sum256_length. reflexivity. }
  rewrite Hk. reflexivity.
Qed.

(** Extra X18.  A zero byte at the end of a key shorter than 64 bytes does not
    count: [hMACSHA256] returns the same bytes with it and without it. *)
Theorem hMACSHA256_zero_padded_key (message key : list byte) :
  (length key < 64)%nat ->
  hMACSHA256 message (key ++ [x00]) = hMACSHA256 message key.
Proof.
  intros Hlen. unfold hMACSHA256, hmac.Sum. f_equal.
  assert (Hk : hmac.blockKey (key ++ [x00]) = hmac.blockKey key).
  { unfold hmac.blockKey, sha256.BlockSize. rewrite length_app. cbn [length].
    destruct (Nat.ltb_spec 64 (length key + 1)); [lia|].
    destruct (Nat.ltb_spec 64 (length key)); [lia|].
    rewrite length_app, <- app_assoc. cbn [length app]. f_equal.
    replace (64 - length key)%nat with (S (64 - (length key + 1))) by lia.
    reflexivity. }
  rewrite Hk. reflexivity.
Qed.

(** Extra X19.  Whether [ValidRequest] accepts depends on the timestamp and
    signature headers, the raw query and the unread body only: two requests
    that agree on these four get the same verdict, whatever their hosts,
    paths and other headers are. *)
Theorem ValidRequest_signed_parts (w : World) (v : Validator) (r1 r2 : http.Request) :
  timestampOf r1 = timestampOf r2 ->
  signatureOf r1 = signatureOf r2 ->
  url.RawQuery (http.URL r1) = url.RawQuery (http.URL r2) ->
  unread r1 = unread r2 ->
  (fst (ValidRequest w v r1) = None <-> fst (ValidRequest w v r2) = None).
Proof.
  intros Hts Hrs Hq Hb.
  destruct (String.eqb_spec (timestampOf r1) "") as [H1|H1].
  { rewrite !ValidRequest_missing by (left; congruence). cbn [fst]. split; discriminate. }
  destruct (String.eqb_spec (signatureOf r1) "") as [H2|H2].
  { rewrite !ValidRequest_missing by (right; congruence). cbn [fst]. split; discriminate. }
  rewrite !ValidRequest_present by congruence.
  rewrite <- Hts, <- Hrs, <- Hq, <- Hb.
  destruct (_ && _); cbn [fst]; split; congruence.
Qed.

(** ** Escaping is lossless *)

Lemma QueryEscape_cons (c : ascii) (r : string) :
  url.QueryEscape (String c r) = String.append (escapeByte c) (url.QueryEscape r).
Proof.
  unfold escapeByte. cbn [url.QueryEscape].
  destruct (url.shouldEscape c); [destruct (Ascii.eqb c " ")|]; reflexivity.
Qed.

Lemma all_bytes (P : ascii -> bool) :
  forallb (fun n => P (ascii_of_nat n)) (seq 0 256) = true -> forall c, P c = true.
Proof.
  intros H c. rewrite forallb_forall in H.
  rewrite <- (ascii_nat_embedding c). apply H. apply in_seq.
  pose proof (nat_ascii_bounded c). lia.
Qed.

Lemma escapeByte_no_delimiter (c : ascii) : anyByte delimiter (escapeByte c) = false.
Proof.
  apply negb_true_iff.
  apply (all_bytes (fun c => negb (anyByte delimiter (escapeByte c)))).
  vm_compute. reflexivity.
Qed.

Lemma anyByte_app (P : ascii -> bool) (a s : string) :
  anyByte P (String.append a s) = anyByte P a || anyByte P s.
Proof.
  induction a as [|c a IH]; [reflexivity|].
  change (String.append (String c a) s) with (String c (String.append a s)).
  cbn [anyByte]. rewrite IH, orb_assoc. reflexivity.
Qed.

Lemma QueryEscape_no_delimiter (s : string) : anyByte delimiter (url.QueryEscape s) = false.
Proof.
  induction s as [|c s IH]; [reflexivity|].
  rewrite QueryEscape_cons, anyByte_app, escapeByte_no_delimiter, IH. reflexivity.
Qed.

(** Unescaping what was written for one byte gives the byte back. *)
Lemma unescape_escapeByte (c : ascii) (t : string) :
  url.unescape (String.append (escapeByte c) t) url.encodeQueryComponent =
  match url.unescape t url.encodeQueryComponent with
  | Ok u => Ok (String c u)
  | Err e => Err e
  end.
Proof.
  destruct c as [[] [] [] [] [] [] [] []]; reflexivity.
Qed.

Lemma QueryUnescape_QueryEscape (s : string) : url.QueryUnescape (url.QueryEscape s) = Ok s.
Proof.
  unfold url.QueryUnescape. induction s as [|c s IH]; [reflexivity|].
  rewrite QueryEscape_cons, unescape_escapeByte, IH. reflexivity.
Qed.

(** ** The canonical string read back *)

Lemma append_assoc (a b c : string) :
  String.append (String.append a b) c = String.append a (String.append b c).
Proof.
  induction a as [|x a IH]; [reflexivity|].
  change (String.append (String x a) b) with (String x (String.append a b)).
  change (String.append (String x (String.append a b)) c)
    with (String x (String.append (String.append a b) c)).
  rewrite IH. reflexivity.
Qed.

Lemma Encode_fold (v : url.Values) (keys : list string) (buf : string) :
  fold_left (fun buf k =>
    fold_left (fun buf x =>
      String.append
        (String.append (String.append (if String.eqb buf "" then buf else String.append buf "&")
                          (url.QueryEscape k)) "=")
        (url.QueryEscape x)) (url.values v k) buf) keys buf
  = fold_left addPiece (map encodedPiece (entriesOf v keys)) buf.
Proof.
  revert buf. induction keys as [|k keys IH]; intros buf; [reflexivity|].
  cbn [fold_left]. rewrite IH. unfold entriesOf. cbn [flat_map].
  rewrite map_app, fold_left_app. f_equal.
  generalize (url.values v k) as xs. intros xs. revert buf.
  induction xs as [|x xs IHx]; intros buf; [reflexivity|].
  cbn [fold_left map]. rewrite IHx. f_equal.
  unfold addPiece, encodedPiece. cbn [fst snd].
  rewrite !append_assoc. reflexivity.
Qed.

Lemma Encode_pieces (v : url.Values) :
  url.Encode v
  = fold_left addPiece
      (map encodedPiece (entriesOf v (strings.Sort (map fst (map_to_list v))))) "".
Proof. apply Encode_fold. Qed.

Lemma append_nonempty (a : string) (c : ascii) (b : string) :
  String.eqb (String.append a (String c b)) "" = false.
Proof. destruct a; reflexivity. Qed.

Lemma eqb_append_nonempty (a b : string) :
  String.eqb a "" = false -> String.eqb (String.append a b) "" = false.
Proof. destruct a; [discriminate | reflexivity]. Qed.

Lemma fold_addPiece_joined (ps : list string) (buf : string) :
  String.eqb buf "" = false ->
  fold_left addPiece ps buf = String.append buf (joinRest ps).
Proof.
  revert buf. induction ps as [|p ps IH]; intros buf Hbuf.
  - cbn. clear. induction buf as [|c buf IH]; [reflexivity|].
    change (String.append (String c buf) "") with (String c (String.append buf "")).
    rewrite <- IH. reflexivity.
  - cbn [fold_left joinRest]. rewrite IH.
    + unfold addPiece. rewrite Hbuf, !append_assoc. reflexivity.
    + unfold addPiece. rewrite Hbuf. apply eqb_append_nonempty, eqb_append_nonempty, Hbuf.
Qed.

Lemma ContainsByte_anyByte (sep : ascii) (s : string) :
  strings.ContainsByte sep s = anyByte (fun c => Ascii.eqb c sep) s.
Proof. induction s as [|c s IH]; [reflexivity|]. cbn. rewrite IH. reflexivity. Qed.

Lemma anyByte_weaken (P Q : ascii -> bool) (s : string) :
  (forall c, P c = true -> Q c = true) -> anyByte Q s = false -> anyByte P s = false.
Proof.
  intros HPQ. induction s as [|c s IH]; [reflexivity|].
  cbn [anyByte]. intros H. apply orb_false_elim in H as [Hc Hs].
  rewrite (IH Hs), orb_false_r. destruct (P c) eqn:HP; [|reflexivity].
  rewrite (HPQ c HP) in Hc. discriminate.
Qed.

Lemma QueryEscape_free (sep : ascii) (s : string) :
  delimiter sep = true -> strings.ContainsByte sep (url.QueryEscape s) = false.
Proof.
  intros Hsep. rewrite ContainsByte_anyByte.
  apply (anyByte_weaken _ delimiter); [|apply QueryEscape_no_delimiter].
  intros c Hc. apply Ascii.eqb_eq in Hc. subst c. exact Hsep.
Qed.

Lemma encodedPiece_no_ampersand (p : string * string) :
  strings.ContainsByte "&" (encodedPiece p) = false.
Proof.
  unfold encodedPiece. rewrite ContainsByte_anyByte, anyByte_app. cbn [anyByte].
  rewrite <- !ContainsByte_anyByte, !QueryEscape_free by reflexivity. reflexivity.
Qed.

Lemma pieceEntry_encodedPiece (p : string * string) : pieceEntry (encodedPiece p) = Some p.
Proof.
  destruct p as [k x]. unfold pieceEntry, encodedPiece. cbn [fst snd].
  assert (Hsemi : strings.ContainsByte ";"
                    (String.append (url.QueryEscape k) (String "=" (url.QueryEscape x))) = false).
  { rewrite ContainsByte_anyByte, anyByte_app. cbn [anyByte].
    rewrite <- !ContainsByte_anyByte, !QueryEscape_free by reflexivity. reflexivity. }
  rewrite Hsemi, append_nonempty.
  rewrite Cut_app by (apply QueryEscape_free; reflexivity).
  cbn [strings.Cut Ascii.eqb Bool.eqb]. rewrite append_empty_r.
  fold (url.QueryUnescape (url.QueryEscape k)) (url.QueryUnescape (url.QueryEscape x)).
  rewrite !QueryUnescape_QueryEscape. reflexivity.
Qed.

Lemma SplitByte_joined (p : string) (ps : list string) :
  Forall (fun q => strings.ContainsByte "&" q = false) (p :: ps) ->
  strings.SplitByte "&" (String.append p (joinRest ps)) = p :: ps.
Proof.
  revert p. induction ps as [|q ps IH]; intros p Hall.
  - cbn [joinRest]. rewrite append_empty_r. apply SplitByte_none.
    apply Forall_inv in Hall. exact Hall.
  - cbn [joinRest]. rewrite SplitByte_app, SplitByte_none by (apply Forall_inv in Hall; exact Hall).
    cbn [app]. f_equal. apply IH. apply Forall_inv_tail in Hall. exact Hall.
Qed.

Lemma omap_encodedPiece (l : list (string * string)) :
  omap pieceEntry (map encodedPiece l) = l.
Proof.
  induction l as [|x l IH]; [reflexivity|].
  cbn [map omap list_omap]. rewrite pieceEntry_encodedPiece.
  cbn [omap list_omap] in IH. rewrite IH. reflexivity.
Qed.

(** Parsing what [Encode] wrote adds the pairs of the map, key by key in
    sorted order. *)
Lemma ParseQuery_Encode_entries (v : url.Values) :
  url.ParseQuery (url.Encode v)
  = fold_left addEntry (entriesOf v (strings.Sort (map fst (map_to_list v)))) ∅.
Proof.
  rewrite Encode_pieces.
  generalize (entriesOf v (strings.Sort (map fst (map_to_list v)))) as es. intros es.
  destruct es as [|e es]; [reflexivity|].
  cbn [map fold_left]. change (addPiece "" (encodedPiece e)) with (encodedPiece e).
  rewrite fold_addPiece_joined by (destruct e; apply append_nonempty).
  unfold url.ParseQuery. rewrite SplitByte_joined.
  - change (encodedPiece e :: map encodedPiece es) with (map encodedPiece (e :: es)).
    rewrite fold_parsePiece, omap_encodedPiece. reflexivity.
  - change (encodedPiece e :: map encodedPiece es) with (map encodedPiece (e :: es)).
    generalize (e :: es) as l. intros l.
    induction l as [|x l IH]; constructor; [apply encodedPiece_no_ampersand | exact IH].
Qed.

Lemma valuesOf_app (k : string) (l1 l2 : list (string * string)) :
  valuesOf k (l1 ++ l2) = valuesOf k l1 ++ valuesOf k l2.
Proof. unfold valuesOf. rewrite List.filter_app, map_app. reflexivity. Qed.

Lemma valuesOf_key (k key : string) (xs : list string) :
  valuesOf k (map (fun x => (key, x)) xs) = if String.eqb key k then xs else [].
Proof.
  unfold valuesOf. induction xs as [|x xs IH]; [destruct (String.eqb key k); reflexivity|].
  cbn [map List.filter fst]. destruct (String.eqb key k); cbn [map snd] in *; congruence.
Qed.

Lemma valuesOf_entriesOf (v : url.Values) (keys : list string) (k : string) :
  NoDup keys ->
  valuesOf k (entriesOf v keys) = if decide (k ∈ keys) then url.values v k else [].
Proof.
  induction keys as [|key keys IH]; intros Hnd.
  - reflexivity.
  - apply NoDup_cons in Hnd as [Hkey Hnd]. unfold entriesOf. cbn [flat_map].
    rewrite valuesOf_app, valuesOf_key. fold (entriesOf v keys). rewrite (IH Hnd).
    destruct (String.eqb_spec key k) as [->|Hne];
      destruct (decide (k ∈ keys)) as [Hin|Hout];
      destruct (decide (k ∈ _ :: keys)) as [Hin2|Hout2];
      try reflexivity; try apply app_nil_r; exfalso;
      first [ exact (Hkey Hin)
            | apply Hout2, elem_of_cons; auto; fail
            | apply elem_of_cons in Hin2 as [Heq|Hin2]; [apply Hne; symmetry; exact Heq|exact (Hout Hin2)] ].
Qed.

Lemma insertSorted_perm (k : string) (l : list string) :
  Permutation (strings.insertSorted k l) (k :: l).
Proof.
  induction l as [|x l IH]; [reflexivity|].
  cbn [strings.insertSorted]. destruct (String.leb k x); [reflexivity|].
  rewrite IH. apply perm_swap.
Qed.

Lemma Sort_perm (l : list string) : Permutation (strings.Sort l) l.
Proof.
  unfold strings.Sort. induction l as [|x l IH]; [reflexivity|].
  cbn [fold_right]. rewrite insertSorted_perm, IH. reflexivity.
Qed.

(** [Encode] loses nothing: parsing the canonical string of a map in which
    every key has a value gives the map back. *)
Lemma ParseQuery_Encode (v : url.Values) :
  (forall k, v !! k <> Some []) -> url.ParseQuery (url.Encode v) = v.
Proof.
  intros Hclean. apply map_eq. intros k.
  rewrite ParseQuery_Encode_entries, lookup_fold_addEntry, valuesOf_entriesOf.
  - destruct (decide (k ∈ strings.Sort (map fst (map_to_list v)))) as [Hin|Hout].
    + unfold url.values. destruct (v !! k) as [[|x xs]|] eqn:Hk.
      * exfalso. exact (Hclean k Hk).
      * reflexivity.
      * exfalso. rewrite Sort_perm in Hin.
        apply list_elem_of_fmap in Hin as [[key xs] [Hkey Hin]]. cbn in Hkey. subst key.
        apply elem_of_map_to_list in Hin. congruence.
    + destruct (v !! k) as [xs|] eqn:Hk; [|reflexivity].
      exfalso. apply Hout. rewrite Sort_perm.
      apply list_elem_of_fmap. exists (k, xs). split; [reflexivity|].
      apply elem_of_map_to_list. exact Hk.
  - rewrite Sort_perm. apply NoDup_fst_map_to_list.
Qed.

Lemma fold_addPiece_free (P : ascii -> bool) (ps : list string) (buf : string) :
  P "&"%char = false -> anyByte P buf = false ->
  Forall (fun p => anyByte P p = false) ps ->
  anyByte P (fold_left addPiece ps buf) = false.
Proof.
  intros Hamp. revert buf. induction ps as [|p ps IH]; intros buf Hbuf Hall; [exact Hbuf|].
  cbn [fold_left]. apply IH; [|apply Forall_inv_tail in Hall; exact Hall].
  apply Forall_inv in Hall. unfold addPiece.
  destruct (String.eqb buf ""); rewrite ?anyByte_app, Hbuf, Hall; [reflexivity|].
  cbn [anyByte]. rewrite Hamp. reflexivity.
Qed.

Lemma Encode_free (P : ascii -> bool) (v : url.Values) :
  P "&"%char = false -> P "="%char = false ->
  (forall c, P c = true -> delimiter c = true) ->
  anyByte P (url.Encode v) = false.
Proof.
  intros Hamp Heq HP. rewrite Encode_pieces.
  apply fold_addPiece_free; [exact Hamp | reflexivity |].
  generalize (entriesOf v (strings.Sort (map fst (map_to_list v)))) as l. intros l.
  induction l as [|x l IH]; constructor; [|exact IH].
  unfold encodedPiece. rewrite anyByte_app. cbn [anyByte].
  rewrite !(anyByte_weaken P delimiter _ HP) by apply QueryEscape_no_delimiter.
  rewrite Heq. reflexivity.
Qed.

Lemma stringContainsCTLByte_anyByte (s : string) :
  url.stringContainsCTLByte s = anyByte url.isCTL s.
Proof. induction s as [|c s IH]; [reflexivity|]. cbn. rewrite IH. reflexivity. Qed.

Lemma ParseQuery_clean (q k : string) : url.ParseQuery q !! k <> Some [].
Proof.
  rewrite ParseQuery_entries, lookup_fold_addEntry.
  destruct (valuesOf k (queryEntries q)) as [|x xs]; [rewrite lookup_empty|]; discriminate.
Qed.

(** The canonical string of a query stands for itself. *)
Lemma canonicalQuery_Encode (q : string) :
  canonicalQuery (url.Encode (url.ParseQuery q)) = Some (url.Encode (url.ParseQuery q)).
Proof.
  rewrite canonicalQuery_eq.
  rewrite Cut_none.
  - rewrite stringContainsCTLByte_anyByte, Encode_free; try reflexivity.
    + cbn [String.eqb orb]. rewrite ParseQuery_Encode by apply ParseQuery_clean. reflexivity.
    + intros c Hc. unfold delimiter. rewrite Hc. repeat rewrite orb_true_r. reflexivity.
  - rewrite ContainsByte_anyByte. apply Encode_free; try reflexivity.
    intros c Hc. unfold delimiter. rewrite Hc. repeat rewrite orb_true_r. reflexivity.
Qed.

(** Extra X20.  Canonicalization is idempotent: the canonical string of a raw
    query is its own canonical string, so a signature gets the same verdict
    for the raw query and for the query in canonical form. *)
Theorem canonicalQuery_idempotent (rqp qp : string) :
  canonicalQuery rqp = Some qp ->
  canonicalQuery qp = Some qp
  /\ forall v ts b rs, validSignature v ts qp b rs = validSignature v ts rqp b rs.
Proof.
  intros H.
  assert (Hqp : canonicalQuery qp = Some qp).
  { rewrite canonicalQuery_eq in H. destruct (strings.Cut "#" rqp) as [[q frag] found].
    destruct (url.stringContainsCTLByte q); [discriminate|].
    destruct (_ || _); [|discriminate]. injection H as <-. apply canonicalQuery_Encode. }
  split; [exact Hqp|]. intros v ts b rs.
  rewrite !validSignature_by_canonical, H, Hqp. reflexivity.
Qed.

(** ** Instances *)


Lemma Validate_transparent_witness :
  let w := initWorld (time.Unix 1000000000 0) in
  let v := NewValidator "secret" in
  let rw := http.mkResponse ∅ None [] in
  Validate w v echo rw signedRequest = echo rw signedRequest
  /\ http.wBody (echo rw signedRequest) = bytesOf "{}".
Proof.
  intros w v rw. split; [|reflexivity].
  apply (Validate_transparent w v echo rw signedRequest); vm_compute; reflexivity.
Defined.

Lemma ValidRequest_canonical_keys_witness :
  let w := initWorld (time.Unix 1000000000 0) in
  let v := NewValidator "secret" in
  let r := http.mkRequest
             (<[tsHeader := ["1000000000"]]> (<[sHeader := [fixtureSignature]]> ∅))
             "example.com" (url.mkURL "" "" "/" false "" "") (http.NewBuffer []) in
  http.Header_ r !! tsHeader = Some ["1000000000"]
  /\ ValidRequest w v r = (Some (unknownHost r), r).
Proof.
  intros w v r. split; [vm_compute; reflexivity|].
  apply (ValidRequest_canonical_keys w v r). left. vm_compute. reflexivity.
Defined.

Lemma validTimestamp_degenerate_window_witness :
  let w := store 0 0 (initWorld (time.Unix 1000000000 0)) in
  validTimestamp w (mkValidator "secret" (Some (AddrOf 0))) "1000000000" = false.
Proof.
  intros w.
  apply (validTimestamp_degenerate_window w (mkValidator "secret" (Some (AddrOf 0))) (AddrOf 0)).
  - reflexivity.
  - vm_compute. discriminate.
Defined.

Lemma validTimestamp_expires_witness :
  validTimestamp (initWorld (time.Unix 1000000000 0)) (NewValidator "secret") "1000000000" = true
  /\ validTimestamp (initWorld (time.Unix 1000000005 0)) (NewValidator "secret") "1000000000"
     = false.
Proof.
  split; [vm_compute; reflexivity|].
  apply (validTimestamp_expires (initWorld (time.Unix 1000000000 0))
           (initWorld (time.Unix 1000000005 0)) (NewValidator "secret") AddrValidityWindow).
  - reflexivity.
  - vm_compute. intuition discriminate.
  - vm_compute. intuition discriminate.
  - vm_compute. intuition discriminate.
  - reflexivity.
  - vm_compute. discriminate.
  - vm_compute. reflexivity.
Defined.

Lemma signedMessage_unambiguous_witness :
  strings.ContainsByte "010" "1000000000" = false
  /\ "1000000000" = "1000000000" /\ "a=1" = "a=1"
  /\ sha256.Sum256 (bytesOf "{}") = sha256.Sum256 (bytesOf "{}").
Proof.
  split; [reflexivity|].
  apply (signedMessage_unambiguous "1000000000" "1000000000" "a=1" "a=1"
           (bytesOf "{}") (bytesOf "{}")); reflexivity.
Defined.

Lemma validSignature_ignores_fragment_witness :
  validSignature (NewValidator "secret") "1000000000" "b=2&a=1#not%20signed" (bytesOf "{}")
    "J5Z/pMlZavFOumvMDh5JJKYYS7I6JXfTUfke+oxnaOM=" = true.
Proof.
  etransitivity;
    [ exact (validSignature_ignores_fragment (NewValidator "secret") "1000000000" "b=2&a=1"
               "not%20signed" (bytesOf "{}") "J5Z/pMlZavFOumvMDh5JJKYYS7I6JXfTUfke+oxnaOM="
               eq_refl eq_refl)
    | vm_compute; reflexivity ].
Defined.


Lemma hMACSHA256_long_key_witness :
  hMACSHA256 (bytesOf "message") (repeat xaa 131)
  = hMACSHA256 (bytesOf "message") (sha256.Sum256 (repeat xaa 131)).
Proof.
  apply (hMACSHA256_long_key (bytesOf "message") (repeat xaa 131)).
  vm_compute. lia.
Defined.

Lemma hMACSHA256_zero_padded_key_witness :
  hMACSHA256 (bytesOf "message") (bytesOf "secret" ++ [x00])
  = hMACSHA256 (bytesOf "message") (bytesOf "secret").
Proof.
  apply (hMACSHA256_zero_padded_key (bytesOf "message") (bytesOf "secret")).
  vm_compute. lia.
Defined.

Lemma ValidRequest_signed_parts_witness :
  let w := initWorld (time.Unix 1000000000 0) in
  let v := NewValidator "secret" in
  let other := http.mkRequest
                 (http.Set_ (http.Header_ signedRequest) "X-Forwarded-For" "10.0.0.1")
                 "other.example" (url.mkURL "https" "" "/admin" false "b=2&a=1" "")
                 (http.NewBuffer (bytesOf "{}")) in
  fst (ValidRequest w v signedRequest) = None <-> fst (ValidRequest w v other) = None.
Proof.
  intros w v other.
  apply (ValidRequest_signed_parts w v signedRequest other); vm_compute; reflexivity.
Defined.

Lemma canonicalQuery_idempotent_witness :
  canonicalQuery "b=2&a=%41" = Some "a=A&b=2"
  /\ canonicalQuery "a=A&b=2" = Some "a=A&b=2".
Proof.
  split; [vm_compute; reflexivity|].
  apply (canonicalQuery_idempotent "b=2&a=%41" "a=A&b=2"). vm_compute. reflexivity.
Defined.

(** ** Equal canonical strings *)





(** ** Signing, then validating *)

(** Extra X22.  A request signed as [calculateSignature] signs is accepted:
    when the timestamp header passes [validTimestamp], the raw query parses
    and the signature header is the base64 form of the signature computed
    over the timestamp header, the canonical query and the unread body,
    [ValidRequest] returns nil. *)
Theorem ValidRequest_accepts_signed (w : World) (v : Validator) (r : http.Request)
    (qp : string) (es : list byte) :
  validTimestamp w v (timestampOf r) = true ->
  canonicalQuery (url.RawQuery (http.URL r)) = Some qp ->
  calculateSignature v (timestampOf r) qp (unread r) = Ok es ->
  signatureOf r = base64.EncodeToString es ->
  fst (ValidRequest w v r) = None.
Proof.
  intros Ht Hq Hes Hrs. apply ValidRequest_accepts.
  rewrite calculateSignature_eq in Hes. injection Hes as Hes.
  assert (Hlen : length es = 32%nat) by (rewrite <- Hes; apply hmac_Sum_length).
  repeat split.
  - intros Hempty. rewrite Hempty in Ht. discriminate.
  - rewrite Hrs. destruct es as [|a [|b [|c es]]]; discriminate.
  - exact Ht.
  - rewrite (validSignature_canonical _ _ _ _ _ _ Hq), Hrs, DecodeString_EncodeToString, Hes.
    apply Equal_refl.
Qed.

Lemma ValidRequest_accepts_signed_witness :
  signatureOf signedRequest = "J5Z/pMlZavFOumvMDh5JJKYYS7I6JXfTUfke+oxnaOM="
  /\ fst (ValidRequest (initWorld (time.Unix 1000000000 0)) (NewValidator "secret")
            signedRequest) = None.
Proof.
  split; [vm_compute; reflexivity|].
  apply (ValidRequest_accepts_signed (initWorld (time.Unix 1000000000 0))
           (NewValidator "secret") signedRequest "a=1&b=2"
           (hmac.Sum (bytesOf "secret")
              (bytesOf "1000000000" ++ x0a :: bytesOf "a=1&b=2" ++ x0a
                 :: sha256.Sum256 (bytesOf "{}")))).
  - vm_compute. reflexivity.
  - vm_compute. reflexivity.
  - vm_compute. reflexivity.
  - vm_compute. reflexivity.
Defined.
